(** * Weight composition for a multi-input Mask R-CNN

    A shallow embedding of [tools/create_multi_input_model.py]: the script
    that assembles one multi-input detection model out of several
    single-input checkpoints.  The embedding follows [main] line by line:
    the partition of a checkpoint's keys, the loop over the body
    checkpoints, the conditional re-initialisation of the muxer and the
    final [torch.save].

    What [main] calls but does not define is kept at its interface.  The
    model built by [Generalized_RCNN()] is an argument of the run.  A
    submodule is the mapping from its parameter names to tensors, and
    [load_state_dict] is strict on names.  [torch.load] reads from a given
    disk; [torch.save] records the file it writes.  The hook
    [init_conv_select_index_] is a parameter.  Tensors are opaque values, so
    shapes and numerics are outside the model, and so are the argument
    parser and the log file. *)

From Stdlib Require Import ZArith Ascii String.
From stdpp Require Import base option list strings gmap fin_maps.

Local Open Scope string_scope.
Local Open Scope list_scope.

(** ** Python string primitives used by the script *)

Module PyStr.

(** [s.startswith(p)]. *)
Fixpoint startswith (s p : string) {struct p} : bool :=
  match p with
  | EmptyString => true
  | String c p' =>
      match s with
      | EmptyString => false
      | String d s' => if Ascii.eqb d c then startswith s' p' else false
      end
  end.

(** The first occurrence of [sep] cuts [s] in two; [None] when [sep] does
    not occur. *)
Fixpoint cut (sep : ascii) (s : string) : option (string * string) :=
  match s with
  | EmptyString => None
  | String c r =>
      if Ascii.eqb c sep then Some (EmptyString, r)
      else match cut sep r with
           | Some (a, b) => Some (String c a, b)
           | None => None
           end
  end.

(** [s.split(sep, 1)]: a list of one or two strings. *)
Definition split1 (sep : ascii) (s : string) : list string :=
  match cut sep s with
  | Some (a, b) => [a; b]
  | None => [s]
  end.

(** [l[-1]] on a list known to be non-empty; [d] is never returned for the
    lists [split1] produces. *)
Definition last_item (d : string) (l : list string) : string :=
  List.last l d.

(** Whether a character occurs in a string. *)
Fixpoint occurs (c : ascii) (s : string) : bool :=
  match s with
  | EmptyString => false
  | String d r => if Ascii.eqb d c then true else occurs c r
  end.

End PyStr.

(** ** Data *)

(** The name under which the backbone is registered in the model. *)
Definition Conv_Body_name : string := "Conv_Body".

Definition dot : ascii := "."%char.

(** The test of lines 64 and 71: [key.startswith('Conv_Body')]. *)
Definition is_body_key (key : string) : bool :=
  PyStr.startswith key Conv_Body_name.

(** [key.split('.', 1)[-1]] of line 63. *)
Definition body_sub_key (key : string) : string :=
  PyStr.last_item key (PyStr.split1 dot key).

(** The first dot-delimited segment of a key. *)
Definition top_segment (key : string) : string :=
  match PyStr.cut dot key with
  | Some (a, _) => a
  | None => key
  end.

(** Python exceptions, one constructor per raising site of [main]. *)
Inductive exn : Type :=
  | LoadError (path : string)
      (* torch.load(checkpoint_path) raised: line 61 *)
  | ModelKeyError (path : string)
      (* the loaded object has no 'model' entry: line 61 *)
  | SlotIndexError (i : nat)
      (* model.Conv_Body.bodies[i] out of range: line 66 *)
  | BodyMismatchError (i : nat)
      (* bodies[i].load_state_dict refused the mapping: line 66 *)
  | UnpackValueError (key : string)
      (* child, child_key = key.split('.', 1) with no '.': line 73 *)
  | DuplicateKeyError (key : string)
      (* the assertion of line 74 *)
  | UnknownChildError (child : string)
      (* model._modules[child]: line 78 *)
  | ChildMismatchError (child : string)
      (* model._modules[child].load_state_dict refused: line 78 *)
  | HookError (index : Z).
      (* init_conv_select_index_ raised: line 84 *)

(** The command line, as far as [main] uses it after the model is built. *)
Record Args : Type := {
  body_checkpoints : list string;
  head_weights_index : Z;
  output_model : string
}.

(** The calls [main] makes on its collaborators, in order. *)
Inductive Event : Type :=
  | EvTorchLoad (path : string)
  | EvLoadBody (i : nat)
  | EvLoadChild (child : string)
  | EvInitConvSelect (index : Z)
  | EvTorchSave (path : string).

(** The submodules a run has populated: backbone slots on the left, head
    children on the right, in the order of the [load_state_dict] calls. *)
Definition population (ev : Event) : option (nat + string) :=
  match ev with
  | EvLoadBody i => Some (inl i)
  | EvLoadChild child => Some (inr child)
  | _ => None
  end.

Definition populations (tr : list Event) : list (nat + string) :=
  omap population tr.

Definition is_save (ev : Event) : bool :=
  match ev with EvTorchSave _ => true | _ => false end.

Definition is_hook (ev : Event) : bool :=
  match ev with EvInitConvSelect _ => true | _ => false end.

(** The paths a run has passed to [torch.load], in order. *)
Definition torch_load_path (ev : Event) : option string :=
  match ev with EvTorchLoad path => Some path | _ => None end.

Definition torch_loads (tr : list Event) : list string :=
  omap torch_load_path tr.

(** A checkpoint is the item sequence of a Python dict, in insertion
    order.  That its keys are pairwise distinct is stated where needed. *)
Abbreviation Checkpoint Tensor := (list (string * Tensor)).

(** [collections.defaultdict(dict)]: an association list in order of first
    access, each child name occurring once. *)
Abbreviation ChildDicts Tensor := (list (string * gmap string Tensor)).

Section Composition.

(** Tensors are opaque: the script only moves them around. *)
Context {Tensor : Type}.

(** A state dict maps parameter names to tensors. *)
Abbreviation StateDict := (gmap string Tensor).

(** [checkpoint.keys()]. *)
Definition keys (c : Checkpoint Tensor) : list string := c.*1.

(** *** The key partitioner (lines 62-65 and 69-75) *)

(** The dict comprehension of lines 62-65; a later item overwrites an
    earlier one with the same sub-key. *)
Definition body_step (d : StateDict) (kv : string * Tensor) : StateDict :=
  if is_body_key kv.1 then <[body_sub_key kv.1 := kv.2]> d else d.

Definition body_state_dict (checkpoint : Checkpoint Tensor) : StateDict :=
  foldl body_step ∅ checkpoint.

(** [children_state_dicts[child]], when the child has an entry. *)
Fixpoint dd_get (child : string) (d : ChildDicts Tensor) : option StateDict :=
  match d with
  | [] => None
  | (c, sd) :: r => if String.eqb c child then Some sd else dd_get child r
  end.

(** [children_state_dicts[child] = sd]: a new child goes last. *)
Fixpoint dd_set (child : string) (sd : StateDict) (d : ChildDicts Tensor) :
    ChildDicts Tensor :=
  match d with
  | [] => [(child, sd)]
  | (c, old) :: r =>
      if String.eqb c child then (c, sd) :: r else (c, old) :: dd_set child sd r
  end.

(** One iteration of the loop of lines 70-75. *)
Definition children_step (d : ChildDicts Tensor) (kv : string * Tensor) :
    exn + ChildDicts Tensor :=
  if is_body_key kv.1 then inr d
  else match PyStr.split1 dot kv.1 with
       | [child; child_key] =>
           let sd := default ∅ (dd_get child d) in
           match sd !! child_key with
           | Some _ => inl (DuplicateKeyError kv.1)
           | None => inr (dd_set child (<[child_key := kv.2]> sd) d)
           end
       | _ => inl (UnpackValueError kv.1)
       end.

(** Lines 70-75, from the entries [d]. *)
Fixpoint children_loop (d : ChildDicts Tensor) (items : Checkpoint Tensor) :
    exn + ChildDicts Tensor :=
  match items with
  | [] => inr d
  | kv :: r =>
      match children_step d kv with
      | inl e => inl e
      | inr d' => children_loop d' r
      end
  end.

(** Lines 69-75. *)
Definition children_state_dicts (checkpoint : Checkpoint Tensor) :
    exn + ChildDicts Tensor :=
  children_loop [] checkpoint.

(** *** The target model *)

(** Modelled from the spec: [nn.Module.load_state_dict] is not part of the
    script.  A submodule is represented by its own state dict (parameter
    name to tensor); loading a mapping succeeds exactly when the mapping's
    keys are the submodule's parameter names, and then every parameter
    holds the mapping's tensor. *)
Definition load_state_dict (module : StateDict) (state_dict : StateDict) :
    option StateDict :=
  if decide (dom state_dict = dom module) then Some state_dict else None.

(** [model.Conv_Body]: the body muxer.  [bodies] is the list of backbone
    slots, [muxer_params] the muxer's parameters outside the slots (the
    selection convolution of the concatenate variant, for instance), and
    [is_ConcatenateConv] the outcome of the [isinstance] test of line 80. *)
Record ConvBody : Type := {
  bodies : list StateDict;
  muxer_params : StateDict;
  is_ConcatenateConv : bool
}.

(** The model built by [Generalized_RCNN()].  [_modules] holds the children
    other than [Conv_Body]: line 78 never looks up a name that starts with
    ['Conv_Body']. *)
Record Model : Type := {
  Conv_Body : ConvBody;
  _modules : gmap string StateDict
}.

(** *** Effects *)

(** The state the script mutates: the model, the files written by
    [torch.save], and the log of collaborator calls. *)
Record World : Type := {
  model : Model;
  written : gmap string (gmap string Model);
  trace : list Event
}.

(** A computation updates the world and either raises or returns. *)
Definition M (A : Type) : Type := World → World * (exn + A).

#[global] Instance M_ret : MRet M := λ A (a : A) w, (w, inr a).
#[global] Instance M_bind : MBind M := λ A B (f : A → M B) (c : M A) w,
  match c w with
  | (w', inl e) => (w', inl e)
  | (w', inr a) => f a w'
  end.

Definition raise {A : Type} (e : exn) : M A := λ w, (w, inl e).
Definition get_model : M Model := λ w, (w, inr (model w)).
Definition set_model (m : Model) : M unit := λ w,
  ({| model := m; written := written w; trace := trace w |}, inr ()).
Definition emit (ev : Event) : M unit := λ w,
  ({| model := model w; written := written w; trace := trace w ++ [ev] |},
   inr ()).
Definition write_file (path : string) (content : gmap string Model) :
    M unit := λ w,
  ({| model := model w;
      written := <[path := content]> (written w);
      trace := trace w |},
   inr ()).

(** The files present when the script starts: what [torch.load] returns
    for each readable path, a dict of top-level entries. *)
Variable disk : gmap string (gmap string (Checkpoint Tensor)).

(** [BodyMuxer_ConcatenateConv.init_conv_select_index_] is defined outside
    the script; [None] stands for a raised exception. *)
Variable init_conv_select_index_ : Z → ConvBody → option ConvBody.

Variable args : Args.

(** Line 61: [torch.load(checkpoint_path)['model']]. *)
Definition torch_load_model (checkpoint_path : string) : M (Checkpoint Tensor) :=
  emit (EvTorchLoad checkpoint_path);;
  match disk !! checkpoint_path with
  | None => raise (LoadError checkpoint_path)
  | Some obj =>
      match obj !! "model" with
      | None => raise (ModelKeyError checkpoint_path)
      | Some checkpoint => mret checkpoint
      end
  end.

(** Line 66: [model.Conv_Body.bodies[i].load_state_dict(body_state_dict)]. *)
Definition load_body (i : nat) (sd : StateDict) : M unit :=
  m ← get_model;
  match bodies (Conv_Body m) !! i with
  | None => raise (SlotIndexError i)
  | Some slot =>
      emit (EvLoadBody i);;
      match load_state_dict slot sd with
      | None => raise (BodyMismatchError i)
      | Some slot' =>
          set_model
            {| Conv_Body :=
                 {| bodies := <[i := slot']> (bodies (Conv_Body m));
                    muxer_params := muxer_params (Conv_Body m);
                    is_ConcatenateConv := is_ConcatenateConv (Conv_Body m) |};
               _modules := _modules m |}
      end
  end.

(** Line 78: [model._modules[child].load_state_dict(child_state_dict)]. *)
Definition load_child (child : string) (sd : StateDict) : M unit :=
  m ← get_model;
  match _modules m !! child with
  | None => raise (UnknownChildError child)
  | Some module =>
      emit (EvLoadChild child);;
      match load_state_dict module sd with
      | None => raise (ChildMismatchError child)
      | Some module' =>
          set_model
            {| Conv_Body := Conv_Body m;
               _modules := <[child := module']> (_modules m) |}
      end
  end.

(** Lines 77-78. *)
Fixpoint load_children (d : ChildDicts Tensor) : M unit :=
  match d with
  | [] => mret ()
  | (child, child_state_dict) :: r =>
      load_child child child_state_dict;; load_children r
  end.

(** Lines 61-78: the body of the loop. *)
Definition loop_body (i : nat) (checkpoint_path : string) : M unit :=
  checkpoint ← torch_load_model checkpoint_path;
  load_body i (body_state_dict checkpoint);;
  if decide (Z.of_nat i = head_weights_index args) then
    match children_state_dicts checkpoint with
    | inl e => raise e
    | inr d => load_children d
    end
  else mret ().

(** Line 60: [for i, checkpoint_path in enumerate(...)], counting from [i]. *)
Fixpoint assembly_loop (i : nat) (paths : list string) : M unit :=
  match paths with
  | [] => mret ()
  | checkpoint_path :: r =>
      loop_body i checkpoint_path;; assembly_loop (S i) r
  end.

(** Lines 80-84. *)
Definition post_init : M unit :=
  m ← get_model;
  if is_ConcatenateConv (Conv_Body m) then
    emit (EvInitConvSelect (head_weights_index args));;
    match init_conv_select_index_ (head_weights_index args) (Conv_Body m) with
    | None => raise (HookError (head_weights_index args))
    | Some cb => set_model {| Conv_Body := cb; _modules := _modules m |}
    end
  else mret ().

(** Lines 88-89. *)
Definition torch_save : M unit :=
  m ← get_model;
  emit (EvTorchSave (output_model args));;
  write_file (output_model args) {["model" := m]}.

(** Lines 60-89 of [main], run on the model built at line 55. *)
Definition main : M unit :=
  assembly_loop 0 (body_checkpoints args);;
  post_init;;
  torch_save.

(** The world in which line 60 starts. *)
Definition initial (m : Model) : World :=
  {| model := m; written := ∅; trace := [] |}.

(** *** Notions used in the statements *)

(** The checkpoint line 61 obtains from a path, when it obtains one. *)
Definition checkpoint_at (path : string) : option (Checkpoint Tensor) :=
  disk !! path ≫= (.!! "model").

(** A leaf of a head partition. *)
Definition dd_leaf (d : ChildDicts Tensor) (child child_key : string) :
    option Tensor :=
  dd_get child d ≫= (.!! child_key).

(** Two head items of a checkpoint yield the same (child, sub-key) pair. *)
Definition collides (c : Checkpoint Tensor) : Prop :=
  ∃ (i j : nat) (key1 key2 : string) (v1 v2 : Tensor) (child child_key : string),
    i < j ∧ c !! i = Some (key1, v1) ∧ c !! j = Some (key2, v2) ∧
    is_body_key key1 = false ∧ is_body_key key2 = false ∧
    PyStr.split1 dot key1 = [child; child_key] ∧
    PyStr.split1 dot key2 = [child; child_key].

(** The children of the model after the mappings of [d] have been loaded
    into it, in order. *)
Definition install (d : ChildDicts Tensor) (mods : gmap string StateDict) :
    gmap string StateDict :=
  foldl (λ m cs, <[cs.1 := cs.2]> m) mods d.

(** The world after a collaborator call has been logged. *)
Definition logged (ev : Event) (w : World) : World :=
  {| model := model w; written := written w; trace := trace w ++ [ev] |}.

(** The world after [bodies[i].load_state_dict(sd)] has returned. *)
Definition with_body (i : nat) (sd : StateDict) (w : World) : World :=
  {| model :=
       {| Conv_Body :=
            {| bodies := <[i := sd]> (bodies (Conv_Body (model w)));
               muxer_params := muxer_params (Conv_Body (model w));
               is_ConcatenateConv := is_ConcatenateConv (Conv_Body (model w)) |};
          _modules := _modules (model w) |};
     written := written w;
     trace := trace w ++ [EvLoadBody i] |}.

(** The world after the loop of lines 77-78 has returned. *)
Definition with_children (d : ChildDicts Tensor) (w : World) : World :=
  {| model :=
       {| Conv_Body := Conv_Body (model w);
          _modules := install d (_modules (model w)) |};
     written := written w;
     trace := trace w ++ (EvLoadChild <$> d.*1) |}.

(** [model._modules[child].load_state_dict(sd)] would return. *)
Definition child_ready (mods : gmap string StateDict)
    (cs : string * StateDict) : Prop :=
  ∃ module, mods !! cs.1 = Some module ∧ dom cs.2 = dom module.

(** Every call of iteration [i] of the loop would return on model [m]. *)
Definition step_ready (m : Model) (i : nat) (path : string) : Prop :=
  ∃ checkpoint slot,
    checkpoint_at path = Some checkpoint ∧
    bodies (Conv_Body m) !! i = Some slot ∧
    dom (body_state_dict checkpoint) = dom slot ∧
    (Z.of_nat i = head_weights_index args →
     ∃ d, children_state_dicts checkpoint = inr d ∧
          Forall (child_ready (_modules m)) d).

(** The head partition of the checkpoint at [path], when there is one. *)
Definition head_partition (path : string) : ChildDicts Tensor :=
  match checkpoint_at path with
  | Some checkpoint =>
      match children_state_dicts checkpoint with
      | inr d => d
      | inl _ => []
      end
  | None => []
  end.

(** The head partition the loop routes into the model: that of the
    checkpoint at the head-weights index, when the index names one. *)
Definition routed_heads : ChildDicts Tensor :=
  if decide (0 ≤ head_weights_index args)%Z then
    match body_checkpoints args !! Z.to_nat (head_weights_index args) with
    | Some path => head_partition path
    | None => []
    end
  else [].

(** The calls a completed loop has made, starting at index [i]. *)
Fixpoint loop_events (i : nat) (paths : list string) : list Event :=
  match paths with
  | [] => []
  | path :: r =>
      EvTorchLoad path :: EvLoadBody i ::
      (if decide (Z.of_nat i = head_weights_index args)
       then EvLoadChild <$> (head_partition path).*1 else []) ++
      loop_events (S i) r
  end.

(** The world after iteration [i] of the loop has returned. *)
Definition step_world (i : nat) (path : string) (w : World) : World :=
  with_children
    (if decide (Z.of_nat i = head_weights_index args)
     then head_partition path else [])
    (with_body i (body_state_dict (default [] (checkpoint_at path)))
       (logged (EvTorchLoad path) w)).

(** The world after the loop has returned, starting at index [i]. *)
Fixpoint loop_world (i : nat) (paths : list string) (w : World) : World :=
  match paths with
  | [] => w
  | path :: r => loop_world (S i) r (step_world i path w)
  end.

(** The world after [init_conv_select_index_] has returned [cb]. *)
Definition with_conv_body (cb : ConvBody) (w : World) : World :=
  {| model := {| Conv_Body := cb; _modules := _modules (model w) |};
     written := written w;
     trace := trace w ++ [EvInitConvSelect (head_weights_index args)] |}.

(** The world after [torch.save] has returned. *)
Definition saved (w : World) : World :=
  {| model := model w;
     written := <[output_model args := {["model" := model w]}]> (written w);
     trace := trace w ++ [EvTorchSave (output_model args)] |}.

(** What a run of the loop leaves alone, whether it returns or raises. *)
Definition loop_frame (w w' : World) : Prop :=
  written w' = written w ∧
  muxer_params (Conv_Body (model w')) = muxer_params (Conv_Body (model w)) ∧
  is_ConcatenateConv (Conv_Body (model w')) =
    is_ConcatenateConv (Conv_Body (model w)) ∧
  length (bodies (Conv_Body (model w'))) = length (bodies (Conv_Body (model w))) ∧
  ∃ evs, trace w' = trace w ++ evs ∧
         Forall (λ ev, is_save ev = false ∧ is_hook ev = false) evs.

(** *** Notions used in the further properties *)

(** The items of a checkpoint that lines 62-65 keep. *)
Definition body_items (c : Checkpoint Tensor) : Checkpoint Tensor :=
  filter (λ kv, is_body_key kv.1 = true) c.

(** The sub-keys of those items, in order, with repetitions. *)
Definition body_sub_keys (c : Checkpoint Tensor) : list string :=
  body_sub_key <$> (body_items c).*1.

End Composition.

Arguments ConvBody Tensor : clear implicits.
Arguments Model Tensor : clear implicits.
Arguments World Tensor : clear implicits.
Arguments M Tensor A : clear implicits.

(** ** A concrete composition

    The scenario of the specification: three checkpoints, each with one
    backbone key and one head key, composed with head-weights index 1 into
    a model of three slots.  Tensors are numbers; the constructor fills the
    model with values no checkpoint holds. *)

Module Scenario.

Definition ckpt (n : nat) : Checkpoint nat :=
  [("Conv_Body.layer1.weight", n); ("ClsHead.fc.weight", 10 + n)].

Definition disk3 : gmap string (gmap string (Checkpoint nat)) :=
  <["a.pth" := {["model" := ckpt 0]}]>
    (<["b.pth" := {["model" := ckpt 1]}]>
       (<["c.pth" := {["model" := ckpt 2]}]> ∅)).

(** A slot and a classification head as the constructor leaves them. *)
Definition fresh_slot : gmap string nat := {["layer1.weight" := 100]}.
Definition fresh_head : gmap string nat := {["fc.weight" := 200]}.

Definition muxer3 (concatenate_conv : bool) : ConvBody nat :=
  {| bodies := [fresh_slot; fresh_slot; fresh_slot];
     muxer_params := ∅;
     is_ConcatenateConv := concatenate_conv |}.

Definition model3 : Model nat :=
  {| Conv_Body := muxer3 false; _modules := {["ClsHead" := fresh_head]} |}.


(** A model built without the classification head. *)
Definition model3_headless : Model nat :=
  {| Conv_Body := muxer3 false; _modules := ∅ |}.

(** A model with one more head child, whose single parameter the
    constructor sets to [init]. *)
Definition model3_box (init : nat) : Model nat :=
  {| Conv_Body := muxer3 false;
     _modules := <["Box_Outs" := {["w" := init]}]> {["ClsHead" := fresh_head]} |}.

Definition args_for (paths : list string) (index : Z) : Args :=
  {| body_checkpoints := paths; head_weights_index := index;
     output_model := "out.pth" |}.

Definition args3 : Args := args_for ["a.pth"; "b.pth"; "c.pth"] 1.

(** A hook that leaves the muxer as it is. *)
Definition hook_keep (index : Z) (cb : ConvBody nat) : option (ConvBody nat) :=
  Some cb.

(** The state written to [out.pth], and one of its head leaves. *)
Definition written_model (w : World nat) : option (Model nat) :=
  written w !! "out.pth" ≫= (.!! "model").

Definition written_head_leaf (w : World nat) (child k : string) : option nat :=
  written_model w ≫= λ s, _modules s !! child ≫= (.!! k).

Definition written_body_leaf (w : World nat) (i : nat) (k : string) : option nat :=
  written_model w ≫= λ s, bodies (Conv_Body s) !! i ≫= (.!! k).

(** A key that starts with ['Conv_Body'] without having it as first
    segment. *)
Definition stray_key : string := "Conv_Body_aux.w".

(** A checkpoint of a backbone alone, and the disk whose second file is
    one. *)
Definition backbone_only (n : nat) : Checkpoint nat :=
  [("Conv_Body.layer1.weight", n)].

Definition disk3_backbone : gmap string (gmap string (Checkpoint nat)) :=
  <["b.pth" := {["model" := backbone_only 1]}]> disk3.

(** The first checkpoint with another head, under a key without a dot. *)
Definition ckpt_other_head : Checkpoint nat :=
  [("Conv_Body.layer1.weight", 0); ("undotted", 7)].

Definition disk3_other_head : gmap string (gmap string (Checkpoint nat)) :=
  <["a.pth" := {["model" := ckpt_other_head]}]> disk3.

End Scenario.

(** ** The inference script

    [tools/test_net.py] has one function, [parse_args], which only declares
    the command line; the rest is the script body.  Two parts of the body
    compute: lines 66-80 check the devices and the checkpoint flags and
    choose the output directory, and lines 118-150 turn [--dataset] into
    settings of the global configuration.  They are embedded here as
    functions of what they read.  The calls between them (logging, the
    git-state script, the merges of configuration files, [run_inference])
    are outside the model. *)

Module TestNet.

(** [x in s] for strings: [sub] occurs in [s]. *)
Fixpoint contains (s sub : string) : bool :=
  PyStr.startswith s sub ||
  match s with
  | EmptyString => false
  | String _ r => contains r sub
  end.

(** [s.endswith(p)], through the reversed strings. *)
Definition endswith (s p : string) : bool :=
  PyStr.startswith (String.rev s) (String.rev p).

(** *** [os.path] on POSIX, as far as lines 78-79 use it *)

Module PyPath.

Definition sep : ascii := "/"%char.

(** [p[:p.rfind('/') + 1]]: up to and including the last separator. *)
Fixpoint head_to_last_sep (p : string) : string :=
  match p with
  | EmptyString => EmptyString
  | String c r =>
      if PyStr.occurs sep p then String c (head_to_last_sep r) else EmptyString
  end.

(** [head == '/' * len(head)]. *)
Fixpoint only_sep (s : string) : bool :=
  match s with
  | EmptyString => true
  | String c r => if Ascii.eqb c sep then only_sep r else false
  end.

(** [head.rstrip('/')]. *)
Fixpoint rstrip_sep (s : string) : string :=
  match s with
  | EmptyString => EmptyString
  | String c r =>
      match rstrip_sep r with
      | EmptyString => if Ascii.eqb c sep then EmptyString else String c EmptyString
      | r' => String c r'
      end
  end.

(** [s.endswith('/')]. *)
Fixpoint endswith_sep (s : string) : bool :=
  match s with
  | EmptyString => false
  | String c EmptyString => Ascii.eqb c sep
  | String _ r => endswith_sep r
  end.

(** [os.path.dirname(p)]. *)
Definition dirname (p : string) : string :=
  let head := head_to_last_sep p in
  if negb (String.eqb head EmptyString) && negb (only_sep head)
  then rstrip_sep head else head.

(** [os.path.join(a, b)]. *)
Definition join (a b : string) : string :=
  if PyStr.startswith b "/" then b
  else if String.eqb a EmptyString || endswith_sep a then (a ++ b)%string
  else (a ++ String sep b)%string.

End PyPath.

(** The ways the script body stops before inference. *)
Inductive exn : Type :=
  | NeedCuda
      (* sys.exit("Need a CUDA device to run the code."): line 67 *)
  | DeviceAssertion
      (* the assertion of line 71 *)
  | CheckpointAssertion
      (* the assertion of lines 73-74 *)
  | UnknownDataset (name : string)
      (* ValueError('Unknown --dataset: ...'): line 143 *)
  | EmptyDatasetsAssertion
      (* the assertion of line 145 *)
  | NoneNotIterable.
      (* x in args.dataset with args.dataset None, a TypeError: line 147 *)

(** The parsed command line, as far as these lines read it. *)
Record Args : Type := {
  dataset : option string;
  load_ckpt : option string;
  load_detectron : option string;
  output_dir : option string;
  multi_gpu_testing : bool
}.

(** [bool(a)] for an optional string argument. *)
Definition truthy (a : option string) : bool :=
  match a with
  | Some s => negb (String.eqb s EmptyString)
  | None => false
  end.

(** Line 77: [args.load_ckpt if args.load_ckpt else args.load_detectron];
    after line 73 the chosen one is a string. *)
Definition ckpt_path (args : Args) : string :=
  default EmptyString
    (if truthy (load_ckpt args) then load_ckpt args else load_detectron args).

(** Lines 66-80: the output directory, and whether it was set
    automatically. *)
Definition preflight (cuda_available : bool) (device_count : nat) (args : Args) :
    exn + (string * bool) :=
  if negb cuda_available then inl NeedCuda
  else if negb (xorb (device_count =? 1)%nat (multi_gpu_testing args))
  then inl DeviceAssertion
  else if negb (xorb (truthy (load_ckpt args)) (truthy (load_detectron args)))
  then inl CheckpointAssertion
  else match output_dir args with
       | None =>
           inr (PyPath.join (PyPath.dirname (PyPath.dirname (ckpt_path args))) "test",
                true)
       | Some d => inr (d, false)
       end.

Section Config.

(** The pixel means are an array; [zero_means] is [np.array([[[0, 0, 0]]])]. *)
Context {Means : Type} (zero_means : Means).

(** The entries of the global [cfg] that lines 118-150 read or set. *)
Record Cfg : Type := {
  TEST_DATASETS : list string;
  MODEL_NUM_CLASSES : Z;
  PIXEL_MEANS : Means;
  TEST_FORCE_JSON_DATASET_EVAL : bool
}.

Definition set_datasets (ds : list string) (cfg : Cfg) : Cfg :=
  {| TEST_DATASETS := ds;
     MODEL_NUM_CLASSES := MODEL_NUM_CLASSES cfg;
     PIXEL_MEANS := PIXEL_MEANS cfg;
     TEST_FORCE_JSON_DATASET_EVAL := TEST_FORCE_JSON_DATASET_EVAL cfg |}.

Definition set_num_classes (n : Z) (cfg : Cfg) : Cfg :=
  {| TEST_DATASETS := TEST_DATASETS cfg;
     MODEL_NUM_CLASSES := n;
     PIXEL_MEANS := PIXEL_MEANS cfg;
     TEST_FORCE_JSON_DATASET_EVAL := TEST_FORCE_JSON_DATASET_EVAL cfg |}.

(** Lines 118-145. *)
Definition select_dataset (dataset : option string) (cfg : Cfg) : exn + Cfg :=
  match dataset with
  | Some name =>
      if String.eqb name "coco2017" then
        inr (set_num_classes 81 (set_datasets ["coco_2017_val"] cfg))
      else if String.eqb name "keypoints_coco2017" then
        inr (set_datasets ["keypoints_coco_2017_val"] cfg)
      else if String.eqb name "coco_2017_objectness" then
        inr (set_num_classes 2 (set_datasets ["coco_2017_val_objectness"] cfg))
      else if String.eqb name "flyingthings" then
        inr (set_datasets ["flyingthings3d_test"] cfg)
      else if String.eqb name "flyingthings_train" then
        inr (set_datasets ["flyingthings3d_train"] cfg)
      else if String.eqb name "flyingthings_estimatedflow" then
        inr (set_datasets ["flyingthings3d_estimatedflow_test"] cfg)
      else if String.eqb name "flyingthings_estimatedflow_train" then
        inr (set_datasets ["flyingthings3d_estimatedflow_train"] cfg)
      else if String.eqb name "fbms_flow" then
        inr (set_datasets ["fbms_flow_test"] cfg)
      else if String.eqb name "fbms_flow_train" then
        inr (set_datasets ["fbms_flow_train"] cfg)
      else if String.eqb name "davis_flow_moving" then
        inr (set_datasets ["davis_flow_moving_test"] cfg)
      else if String.eqb name "davis_flow_moving_train" then
        inr (set_datasets ["davis_flow_moving_train"] cfg)
      else inl (UnknownDataset name)
  | None =>
      match TEST_DATASETS cfg with
      | [] => inl EmptyDatasetsAssertion
      | _ :: _ => inr cfg
      end
  end.

(** The test of line 147 on a dataset name. *)
Definition is_flow_dataset (name : string) : bool :=
  contains name "flyingthings" || contains name "fbms" || contains name "davis".

(** Lines 147-150. *)
Definition flow_overrides (dataset : option string) (cfg : Cfg) : exn + Cfg :=
  match dataset with
  | None => inl NoneNotIterable
  | Some name =>
      if is_flow_dataset name then
        inr {| TEST_DATASETS := TEST_DATASETS cfg;
               MODEL_NUM_CLASSES := 2;
               PIXEL_MEANS := zero_means;
               TEST_FORCE_JSON_DATASET_EVAL := true |}
      else inr cfg
  end.

(** Lines 118-150. *)
Definition configure_dataset (dataset : option string) (cfg : Cfg) : exn + Cfg :=
  match select_dataset dataset cfg with
  | inl e => inl e
  | inr cfg1 => flow_overrides dataset cfg1
  end.

(** The names the chain of lines 118-141 accepts. *)
Definition known_datasets : list string :=
  ["coco2017"; "keypoints_coco2017"; "coco_2017_objectness";
   "flyingthings"; "flyingthings_train";
   "flyingthings_estimatedflow"; "flyingthings_estimatedflow_train";
   "fbms_flow"; "fbms_flow_train";
   "davis_flow_moving"; "davis_flow_moving_train"].

End Config.

Arguments Cfg Means : clear implicits.

End TestNet.

(** ** Facts about the string primitives *)

Lemma cut_Some sep s a b :
  PyStr.cut sep s = Some (a, b) →
  s = (a ++ String sep b)%string ∧ PyStr.occurs sep a = false.
Proof.
  revert a b. induction s as [|c r IH]; intros a b; simpl; [done|].
  destruct (Ascii.eqb_spec c sep) as [->|Hne].
  - intros [= <- <-]. done.
  - destruct (PyStr.cut sep r) as [[a' b']|] eqn:E; [|done].
    intros [= <- <-]. destruct (IH a' b' eq_refl) as [-> Ho].
    split; [done|]. simpl. by destruct (Ascii.eqb_spec c sep).
Qed.

Lemma cut_None sep s : PyStr.cut sep s = None ↔ PyStr.occurs sep s = false.
Proof.
  induction s as [|c r IH]; simpl; [done|].
  destruct (Ascii.eqb c sep); [done|].
  destruct (PyStr.cut sep r) as [[a b]|].
  - split; [done|]. intros H. apply IH in H. done.
  - split; [|done]. intros _. by apply IH.
Qed.

Lemma cut_app sep a b :
  PyStr.occurs sep a = false →
  PyStr.cut sep (a ++ String sep b)%string = Some (a, b).
Proof.
  induction a as [|c r IH]; simpl.
  - by rewrite Ascii.eqb_refl.
  - destruct (Ascii.eqb c sep); [done|]. intros H. by rewrite IH.
Qed.

Lemma split1_pair sep s a b :
  PyStr.split1 sep s = [a; b] ↔ PyStr.cut sep s = Some (a, b).
Proof.
  unfold PyStr.split1. destruct (PyStr.cut sep s) as [[a' b']|]; split; congruence.
Qed.

Lemma split1_pair_inj sep s s' a b :
  PyStr.split1 sep s = [a; b] → PyStr.split1 sep s' = [a; b] → s = s'.
Proof.
  rewrite !split1_pair. intros [-> _]%cut_Some [-> _]%cut_Some. done.
Qed.

Lemma startswith_app s p : PyStr.startswith (p ++ s)%string p = true.
Proof. induction p as [|c p IH]; simpl; [done|]. by rewrite Ascii.eqb_refl. Qed.

Lemma startswith_prefix s p :
  PyStr.startswith s p = true ↔ ∃ r, s = (p ++ r)%string.
Proof.
  split; [|intros [r ->]; apply startswith_app].
  revert s. induction p as [|c p IH]; intros s; simpl; [by eauto|].
  destruct s as [|d s]; [done|]. destruct (Ascii.eqb_spec d c) as [->|]; [|done].
  intros [r ->]%IH. by exists r.
Qed.

Lemma top_segment_body key :
  top_segment key = Conv_Body_name → is_body_key key = true.
Proof.
  unfold top_segment, is_body_key.
  destruct (PyStr.cut dot key) as [[a b]|] eqn:E.
  - apply cut_Some in E as [-> _]. intros ->. apply startswith_app.
  - intros ->. done.
Qed.

Lemma body_sub_key_cut key :
  body_sub_key key = match PyStr.cut dot key with Some (_, b) => b | None => key end.
Proof.
  unfold body_sub_key, PyStr.split1, PyStr.last_item.
  by destruct (PyStr.cut dot key) as [[a b]|].
Qed.

Section Properties.

Context {Tensor : Type}.
Context (disk : gmap string (gmap string (Checkpoint Tensor))).
Context (init_conv_select_index_ :
           Z → ConvBody Tensor → option (ConvBody Tensor)).
Context (args : Args).

#[local] Abbreviation StateDict := (gmap string Tensor).

(** ** The body partition *)

Lemma body_state_dict_snoc (c : Checkpoint Tensor) kv :
  body_state_dict (c ++ [kv]) = body_step (body_state_dict c) kv.
Proof. unfold body_state_dict. by rewrite foldl_app. Qed.

Lemma body_fold_lookup (c : Checkpoint Tensor) (d : StateDict) sk v :
  foldl body_step d c !! sk = Some v →
  d !! sk = Some v ∨
  ∃ key, (key, v) ∈ c ∧ is_body_key key = true ∧ body_sub_key key = sk.
Proof.
  revert d. induction c as [|[key w] c IH]; intros d; simpl; [by left|].
  intros [H|(key' & Hin & Hb & Hs)]%IH.
  - unfold body_step in H. simpl in H.
    destruct (is_body_key key) eqn:Hb; [|by left].
    destruct (decide (body_sub_key key = sk)) as [<-|Hne].
    + rewrite lookup_insert_eq in H. injection H as ->.
      right. exists key. split; [left|done].
    + rewrite lookup_insert_ne in H by done. by left.
  - right. exists key'. split; [by right|done].
Qed.

Lemma body_fold_keep (c : Checkpoint Tensor) (d : StateDict) sk :
  (∀ kv, kv ∈ c → is_body_key kv.1 = true → body_sub_key kv.1 ≠ sk) →
  foldl body_step d c !! sk = d !! sk.
Proof.
  revert d. induction c as [|[key w] c IH]; intros d Hc; simpl; [done|].
  rewrite IH.
  - unfold body_step. simpl. destruct (is_body_key key) eqn:Hb; [|done].
    rewrite lookup_insert_ne; [done|]. apply (Hc (key, w)); [left|done].
  - intros kv Hin. apply Hc. by right.
Qed.

(** The last body item with a given sub-key decides its value. *)
Lemma body_state_dict_last (pre post : Checkpoint Tensor) key v :
  is_body_key key = true →
  (∀ kv, kv ∈ post → is_body_key kv.1 = true →
         body_sub_key kv.1 ≠ body_sub_key key) →
  body_state_dict (pre ++ (key, v) :: post) !! body_sub_key key = Some v.
Proof.
  intros Hb Hpost. unfold body_state_dict. rewrite foldl_app. simpl.
  rewrite body_fold_keep by done.
  unfold body_step. simpl. rewrite Hb. apply lookup_insert_eq.
Qed.

Lemma body_state_dict_dom (c : Checkpoint Tensor) sk :
  sk ∈ dom (body_state_dict c) ↔
  ∃ key v, (key, v) ∈ c ∧ is_body_key key = true ∧ body_sub_key key = sk.
Proof.
  rewrite elem_of_dom. split.
  - intros [v [H|(key & ? & ? & ?)]%body_fold_lookup]; [done|]. by exists key, v.
  - intros (key & v & Hin & Hb & <-). revert key v Hin Hb.
    induction c as [|kv c IH] using rev_ind; intros key v Hin Hb.
    + by apply elem_of_nil in Hin.
    + rewrite body_state_dict_snoc. unfold body_step.
      apply elem_of_app in Hin as [Hin|Hin%list_elem_of_singleton].
      * destruct (is_body_key kv.1); [|by eapply IH].
        destruct (decide (body_sub_key kv.1 = body_sub_key key)) as [->|Hne].
        -- rewrite lookup_insert_eq. by eexists.
        -- rewrite lookup_insert_ne by done. by eapply IH.
      * subst kv. simpl. rewrite Hb, lookup_insert_eq. by eexists.
Qed.

(** ** The head partition *)

Lemma dd_get_set_eq child sd (d : ChildDicts Tensor) :
  dd_get child (dd_set child sd d) = Some sd.
Proof.
  induction d as [|[c old] r IH]; simpl.
  - by rewrite String.eqb_refl.
  - destruct (String.eqb_spec c child) as [->|Hne]; simpl.
    + by rewrite String.eqb_refl.
    + by destruct (String.eqb_spec c child).
Qed.

Lemma dd_get_set_ne child child' sd (d : ChildDicts Tensor) :
  child ≠ child' → dd_get child' (dd_set child sd d) = dd_get child' d.
Proof.
  intros Hne. induction d as [|[c old] r IH]; simpl.
  - by destruct (String.eqb_spec child child').
  - destruct (String.eqb_spec c child) as [->|Hc]; simpl.
    + by destruct (String.eqb_spec child child').
    + by rewrite IH.
Qed.

Lemma dd_get_elem_of child (d : ChildDicts Tensor) :
  child ∈ d.*1 ↔ is_Some (dd_get child d).
Proof.
  induction d as [|[c sd] r IH]; simpl.
  - split; [by intros ?%elem_of_nil|by intros [? ?]].
  - rewrite elem_of_cons. destruct (String.eqb_spec c child) as [->|Hc].
    + split; [by eauto|by left].
    + rewrite <- IH. split; [intros [?|?]; [congruence|done]|by right].
Qed.

Lemma dd_set_fst child sd (d : ChildDicts Tensor) :
  (dd_set child sd d).*1 =
  match dd_get child d with Some _ => d.*1 | None => d.*1 ++ [child] end.
Proof.
  induction d as [|[c old] r IH]; simpl; [done|].
  destruct (String.eqb_spec c child) as [->|Hc]; [done|].
  rewrite fmap_cons, IH. by destruct (dd_get child r).
Qed.

Lemma dd_set_NoDup child sd (d : ChildDicts Tensor) :
  NoDup d.*1 → NoDup (dd_set child sd d).*1.
Proof.
  intros Hd. rewrite dd_set_fst. destruct (dd_get child d) eqn:E; [done|].
  apply NoDup_app. split_and!; [done| |apply NoDup_singleton].
  intros x Hx ->%list_elem_of_singleton.
  apply dd_get_elem_of in Hx as [? ?]. congruence.
Qed.

Lemma dd_leaf_set child ck v (d : ChildDicts Tensor) c k :
  dd_leaf (dd_set child (<[ck := v]> (default ∅ (dd_get child d))) d) c k =
  if decide (c = child ∧ k = ck) then Some v else dd_leaf d c k.
Proof.
  unfold dd_leaf. destruct (decide (c = child)) as [->|Hc].
  - rewrite dd_get_set_eq. simpl. destruct (decide (k = ck)) as [->|Hk].
    + rewrite lookup_insert_eq. by rewrite decide_True.
    + rewrite lookup_insert_ne by done. rewrite decide_False by (by intros [_ ?]).
      by destruct (dd_get child d).
  - rewrite dd_get_set_ne by done. by rewrite decide_False by (by intros [? _]).
Qed.

Lemma dd_leaf_default (d : ChildDicts Tensor) child ck :
  default ∅ (dd_get child d) !! ck = dd_leaf d child ck.
Proof. unfold dd_leaf. by destruct (dd_get child d). Qed.

Lemma children_step_inr (d d' : ChildDicts Tensor) key v :
  children_step d (key, v) = inr d' →
  (is_body_key key = true ∧ d' = d) ∨
  (is_body_key key = false ∧
   ∃ child ck, PyStr.split1 dot key = [child; ck] ∧
     dd_leaf d child ck = None ∧
     d' = dd_set child (<[ck := v]> (default ∅ (dd_get child d))) d).
Proof.
  unfold children_step. simpl. destruct (is_body_key key); [intros [= <-]; by left|].
  intros H. right. split; [done|].
  unfold PyStr.split1 in *. destruct (PyStr.cut dot key) as [[a b]|]; [|done].
  exists a, b. rewrite dd_leaf_default in H.
  destruct (dd_leaf d a b) eqn:E; [done|]. injection H as <-. done.
Qed.

Lemma children_step_inl (d : ChildDicts Tensor) key v e :
  children_step d (key, v) = inl e →
  is_body_key key = false ∧
  ((e = UnpackValueError key ∧ PyStr.occurs dot key = false) ∨
   (e = DuplicateKeyError key ∧
    ∃ child ck, PyStr.split1 dot key = [child; ck] ∧
                is_Some (dd_leaf d child ck))).
Proof.
  unfold children_step. simpl. destruct (is_body_key key); [done|].
  intros H. split; [done|].
  unfold PyStr.split1 in *. destruct (PyStr.cut dot key) as [[a b]|] eqn:Hcut.
  - rewrite dd_leaf_default in H. destruct (dd_leaf d a b) eqn:E; [|done].
    injection H as <-. right. split; [done|]. exists a, b. by rewrite E.
  - injection H as <-. left. split; [done|]. by apply cut_None.
Qed.

Lemma children_loop_app (l1 l2 : Checkpoint Tensor) (d : ChildDicts Tensor) :
  children_loop d (l1 ++ l2) =
  match children_loop d l1 with
  | inl e => inl e
  | inr d1 => children_loop d1 l2
  end.
Proof.
  revert d. induction l1 as [|kv l1 IH]; intros d; simpl; [done|].
  destruct (children_step d kv); [done|]. apply IH.
Qed.

Lemma children_loop_leaf (items : Checkpoint Tensor) (d d' : ChildDicts Tensor) :
  children_loop d items = inr d' →
  ∀ c k v,
    dd_leaf d' c k = Some v ↔
    dd_leaf d c k = Some v ∨
    ∃ key, (key, v) ∈ items ∧ is_body_key key = false ∧
           PyStr.split1 dot key = [c; k].
Proof.
  revert d. induction items as [|[key v0] r IH]; intros d; simpl.
  - intros [= <-] c k v. split; [by left|].
    intros [?|(? & []%elem_of_nil & _)]. done.
  - destruct (children_step d (key, v0)) as [e|d1] eqn:Hstep; [done|].
    intros Hloop c k v. rewrite (IH _ Hloop).
    apply children_step_inr in Hstep
      as [[Hb ->]|(Hb & child & ck & Hsplit & Hfresh & ->)].
    + split; (intros [?|(key' & Hin & Hb' & Hs)]; [by left|right; exists key']).
      * split; [by right|done].
      * apply elem_of_cons in Hin as [[= -> ->]|Hin]; [congruence|done].
    + rewrite dd_leaf_set. split.
      * intros [H|(key' & Hin & Hb' & Hs)].
        -- case_decide as Hd; [|by left]. destruct Hd as [-> ->].
           injection H as <-. right. exists key. split; [left|done].
        -- right. exists key'. split; [by right|done].
      * intros [H|(key' & Hin & Hb' & Hs)].
        -- left. rewrite decide_False; [done|]. intros [-> ->]. congruence.
        -- apply elem_of_cons in Hin as [[= -> ->]|Hin].
           ++ left. rewrite decide_True; [done|]. split; congruence.
           ++ right. by exists key'.
Qed.

Lemma children_loop_NoDup (items : Checkpoint Tensor) (d d' : ChildDicts Tensor) :
  children_loop d items = inr d' → NoDup d.*1 → NoDup d'.*1.
Proof.
  revert d. induction items as [|[key v0] r IH]; intros d; simpl.
  - by intros [= <-].
  - destruct (children_step d (key, v0)) as [e|d1] eqn:Hstep; [done|].
    intros Hloop Hd. apply (IH _ Hloop).
    apply children_step_inr in Hstep as [[_ ->]|(_ & ? & ? & _ & _ & ->)]; [done|].
    by apply dd_set_NoDup.
Qed.

Lemma children_loop_children (items : Checkpoint Tensor) (d d' : ChildDicts Tensor) :
  children_loop d items = inr d' →
  ∀ c, c ∈ d'.*1 ↔
       c ∈ d.*1 ∨
       ∃ key v k, (key, v) ∈ items ∧ is_body_key key = false ∧
                  PyStr.split1 dot key = [c; k].
Proof.
  revert d. induction items as [|[key v0] r IH]; intros d; simpl.
  - intros [= <-] c. split; [by left|].
    intros [?|(? & ? & ? & []%elem_of_nil & _)]. done.
  - destruct (children_step d (key, v0)) as [e|d1] eqn:Hstep; [done|].
    intros Hloop c. rewrite (IH _ Hloop).
    apply children_step_inr in Hstep
      as [[Hb ->]|(Hb & child & ck & Hsplit & Hfresh & ->)].
    + split; (intros [?|(key' & v & k & Hin & Hb' & Hs)];
              [by left|right; exists key', v, k]).
      * split; [by right|done].
      * apply elem_of_cons in Hin as [[= -> ->]|Hin]; [congruence|done].
    + rewrite dd_set_fst. split.
      * intros [H|(key' & v & k & Hin & Hb' & Hs)].
        -- destruct (dd_get child d); [by left|].
           apply elem_of_app in H as [?|Hc%list_elem_of_singleton]; [by left|].
           subst c. right. exists key, v0, ck. split; [left|done].
        -- right. exists key', v, k. split; [by right|done].
      * intros [H|(key' & v & k & Hin & Hb' & Hs)].
        -- left. destruct (dd_get child d); [done|]. apply elem_of_app. by left.
        -- apply elem_of_cons in Hin as [[= -> ->]|Hin].
           ++ left. assert (c = child) as -> by congruence.
              destruct (dd_get child d) eqn:E.
              ** apply dd_get_elem_of. by rewrite E.
              ** apply elem_of_app. right. by apply list_elem_of_singleton.
           ++ right. by exists key', v, k.
Qed.

(** A child of the head partition never starts with ['Conv_Body']: line 78
    does not reach the backbone. *)
Lemma head_child_not_body (c : Checkpoint Tensor) (d : ChildDicts Tensor) child :
  children_state_dicts c = inr d → child ∈ d.*1 → is_body_key child = false.
Proof.
  intros Hd Hin. apply (children_loop_children _ _ _ Hd) in Hin
    as [[]%elem_of_nil|(key & v & k & _ & Hb & Hs)].
  apply split1_pair, cut_Some in Hs as [-> _].
  destruct (is_body_key child) eqn:Hc; [|done].
  apply startswith_prefix in Hc as [r ->].
  rewrite <- Hb. symmetry. apply startswith_prefix.
  by exists (r ++ String dot k)%string.
Qed.

Lemma children_loop_inl (items : Checkpoint Tensor) (d : ChildDicts Tensor) e :
  children_loop d items = inl e ↔
  ∃ pre key v post d1,
    items = pre ++ (key, v) :: post ∧
    children_loop d pre = inr d1 ∧
    children_step d1 (key, v) = inl e.
Proof.
  split.
  - revert d. induction items as [|[key v0] r IH]; intros d; simpl; [done|].
    destruct (children_step d (key, v0)) as [e'|d1] eqn:Hstep.
    + intros [= ->]. by exists [], key, v0, r, d.
    + intros (pre & key' & v & post & d2 & -> & Hpre & Hs)%IH.
      exists ((key, v0) :: pre), key', v, post, d2. simpl. by rewrite Hstep.
  - intros (pre & key & v & post & d1 & -> & Hpre & Hs).
    rewrite children_loop_app, Hpre. simpl. by rewrite Hs.
Qed.

Lemma children_error_shape (c : Checkpoint Tensor) (d : ChildDicts Tensor) e :
  children_loop d c = inl e →
  ∃ key, key ∈ keys c ∧ is_body_key key = false ∧
    ((e = UnpackValueError key ∧ PyStr.occurs dot key = false) ∨
     e = DuplicateKeyError key).
Proof.
  intros (pre & key & v & post & d1 & -> & _ & Hstep)%children_loop_inl.
  apply children_step_inl in Hstep as [Hb He]. exists key. split_and!; [|done|].
  - unfold keys. rewrite fmap_app, fmap_cons. apply elem_of_app. right. left.
  - destruct He as [[-> ?]|[-> _]]; [by left|by right].
Qed.

Lemma dd_leaf_nil child ck : dd_leaf ([] : ChildDicts Tensor) child ck = None.
Proof. done. Qed.

Lemma duplicate_error_collides (c : Checkpoint Tensor) key :
  children_state_dicts c = inl (DuplicateKeyError key) → collides c.
Proof.
  intros (pre & key' & v & post & d1 & -> & Hpre & Hstep)%children_loop_inl.
  apply children_step_inl in Hstep as [Hb [[[=] _]|[_ (child & ck & Hs & [v' Hl])]]].
  apply (children_loop_leaf _ _ _ Hpre) in Hl as [Hl|(key1 & Hin & Hb1 & Hs1)].
  { by rewrite dd_leaf_nil in Hl. }
  apply list_elem_of_lookup in Hin as [i Hi].
  exists i, (length pre), key1, key', v', v, child, ck. split_and!; try done.
  - by eapply lookup_lt_Some.
  - by apply lookup_app_l_Some.
  - by apply list_lookup_middle.
Qed.

Lemma success_no_collision (c : Checkpoint Tensor) (d : ChildDicts Tensor) :
  children_state_dicts c = inr d → ¬ collides c.
Proof.
  intros Hok (i & j & key1 & key2 & v1 & v2 & child & ck &
              Hij & Hi & Hj & Hb1 & Hb2 & Hs1 & Hs2).
  unfold children_state_dicts in Hok.
  rewrite <- (take_drop_middle c j (key2, v2)) in Hok by done.
  rewrite children_loop_app in Hok.
  destruct (children_loop [] (take j c)) as [e|d1] eqn:Hpre; [done|].
  simpl in Hok.
  destruct (children_step d1 (key2, v2)) as [e|d2] eqn:Hstep; [done|].
  apply children_step_inr in Hstep as [[? _]|(_ & ch & k & Hs & Hfresh & _)];
    [congruence|].
  assert (ch = child ∧ k = ck) as [-> ->] by (split; congruence).
  assert (dd_leaf d1 child ck = Some v1) as Hl; [|congruence].
  apply (children_loop_leaf _ _ _ Hpre). right. exists key1. split_and!; try done.
  apply list_elem_of_lookup. exists i. by rewrite lookup_take_lt.
Qed.

Lemma unique_keys_no_collision (c : Checkpoint Tensor) :
  NoDup (keys c) → ¬ collides c.
Proof.
  intros Hnd (i & j & key1 & key2 & v1 & v2 & child & ck &
              Hij & Hi & Hj & _ & _ & Hs1 & Hs2).
  assert (key1 = key2) as -> by (by eapply split1_pair_inj).
  assert (i = j); [|lia].
  eapply (NoDup_lookup (keys c)); [done| |]; unfold keys;
    rewrite list_lookup_fmap; [by rewrite Hi|by rewrite Hj].
Qed.

(** C6.  Building the head partition of a checkpoint stops at the assertion
    of line 74 exactly when two head items of the checkpoint give the same
    (child, sub-key) pair, provided no head key lacks a ['.'] (such a key
    stops the loop at line 73 first).  The items of a Python dict have
    pairwise distinct keys, and a key is recovered from its pair, so for a
    checkpoint that is a dict the equivalence holds with both sides false:
    no two items collide and the assertion never fails. *)
Theorem duplicate_key_error_iff_collision (c : Checkpoint Tensor) :
  ((∀ key, key ∈ keys c → is_body_key key = false →
           PyStr.occurs dot key = true) →
   ((∃ key, children_state_dicts c = inl (DuplicateKeyError key)) ↔
    collides c)) ∧
  (NoDup (keys c) →
   ((∃ key, children_state_dicts c = inl (DuplicateKeyError key)) ↔
    collides c) ∧
   ¬ collides c ∧
   ∀ key, children_state_dicts c ≠ inl (DuplicateKeyError key)).
Proof.
  split.
  - intros Hdot. split; [intros [key H]; by eapply duplicate_error_collides|].
    intros Hcol. destruct (children_state_dicts c) as [e|d] eqn:Hres.
    + apply children_error_shape in Hres as (key & Hin & Hb & [[-> Ho]| ->]).
      * rewrite (Hdot key Hin Hb) in Ho. done.
      * by exists key.
    + by destruct (success_no_collision _ _ Hres).
  - intros Hnd. pose proof (unique_keys_no_collision c Hnd) as Hno.
    split_and!; [|done|].
    + split; [intros [key H]; by eapply duplicate_error_collides|done].
    + intros key H. apply Hno. by eapply duplicate_error_collides.
Qed.

Lemma body_key_sub_key rest :
  is_body_key ("Conv_Body." ++ rest)%string = true ∧
  body_sub_key ("Conv_Body." ++ rest)%string = rest.
Proof. by rewrite body_sub_key_cut. Qed.

(** C2, as the code has it.  A key is a body key when it starts with the
    characters ['Conv_Body'], which covers every key whose first segment is
    ['Conv_Body']; its sub-key is what follows the first ['.'] (the whole
    key when there is none), so ['Conv_Body.' ++ rest] has sub-key [rest].
    The body partition holds exactly the sub-keys of the body keys, each
    with the tensor of the last body item of that sub-key.  When the head
    partition is built, its leaves are exactly the other items, each under
    its first segment with the remainder as sub-key. *)
Theorem partition_by_prefix (c : Checkpoint Tensor) (d : ChildDicts Tensor) :
  children_state_dicts c = inr d →
  (∀ key, top_segment key = Conv_Body_name → is_body_key key = true) ∧
  (∀ key, is_body_key key = true ↔ ∃ r, key = (Conv_Body_name ++ r)%string) ∧
  (∀ rest, is_body_key ("Conv_Body." ++ rest)%string = true ∧
           body_sub_key ("Conv_Body." ++ rest)%string = rest) ∧
  (∀ sk, sk ∈ dom (body_state_dict c) ↔
         ∃ key v, (key, v) ∈ c ∧ is_body_key key = true ∧
                  body_sub_key key = sk) ∧
  (∀ sk v, body_state_dict c !! sk = Some v →
           ∃ key, (key, v) ∈ c ∧ is_body_key key = true ∧
                  body_sub_key key = sk) ∧
  (∀ pre post key v,
     c = pre ++ (key, v) :: post → is_body_key key = true →
     (∀ kv, kv ∈ post → is_body_key kv.1 = true →
            body_sub_key kv.1 ≠ body_sub_key key) →
     body_state_dict c !! body_sub_key key = Some v) ∧
  (∀ child ck v,
     dd_leaf d child ck = Some v ↔
     ∃ key, (key, v) ∈ c ∧ is_body_key key = false ∧
            key = (child ++ String dot ck)%string ∧
            PyStr.occurs dot child = false).
Proof.
  intros Hd. split_and!.
  - apply top_segment_body.
  - intros key. apply startswith_prefix.
  - apply body_key_sub_key.
  - apply body_state_dict_dom.
  - intros sk v [H|H]%body_fold_lookup; [done|exact H].
  - intros pre post key v -> Hb Hpost. by apply body_state_dict_last.
  - intros child ck v. rewrite (children_loop_leaf _ _ _ Hd), dd_leaf_nil.
    split.
    + intros [?|(key & Hin & Hb & Hs)]; [done|]. exists key.
      apply split1_pair, cut_Some in Hs as [-> Ho]. done.
    + intros (key & Hin & Hb & -> & Ho). right.
      exists (child ++ String dot ck)%string. split_and!; [done..|].
      apply split1_pair, cut_app. done.
Qed.

(** ** The collaborator calls *)

Lemma bind_run {A B : Type} (c : M Tensor A) (f : A → M Tensor B) w :
  (c ≫= f) w =
  match c w with
  | (w', inl e) => (w', inl e)
  | (w', inr a) => f a w'
  end.
Proof. done. Qed.

Lemma torch_load_model_run path w :
  torch_load_model disk path w =
  match disk !! path with
  | None => (logged (EvTorchLoad path) w, inl (LoadError path))
  | Some obj =>
      match obj !! "model" with
      | None => (logged (EvTorchLoad path) w, inl (ModelKeyError path))
      | Some checkpoint => (logged (EvTorchLoad path) w, inr checkpoint)
      end
  end.
Proof.
  unfold torch_load_model. rewrite bind_run. simpl.
  destruct (disk !! path) as [obj|]; [|done]. by destruct (obj !! "model").
Qed.

Lemma load_body_run i (sd : StateDict) w :
  load_body i sd w =
  match bodies (Conv_Body (model w)) !! i with
  | None => (w, inl (SlotIndexError i))
  | Some slot =>
      if decide (dom sd = dom slot) then (with_body i sd w, inr ())
      else (logged (EvLoadBody i) w, inl (BodyMismatchError i))
  end.
Proof.
  unfold load_body. rewrite bind_run. simpl.
  destruct (bodies (Conv_Body (model w)) !! i) as [slot|]; [|done].
  rewrite bind_run. simpl. unfold load_state_dict. by case_decide.
Qed.

Lemma load_child_run child (sd : StateDict) w :
  load_child child sd w =
  match _modules (model w) !! child with
  | None => (w, inl (UnknownChildError child))
  | Some module =>
      if decide (dom sd = dom module) then (with_children [(child, sd)] w, inr ())
      else (logged (EvLoadChild child) w, inl (ChildMismatchError child))
  end.
Proof.
  unfold load_child. rewrite bind_run. simpl.
  destruct (_modules (model w) !! child) as [module|]; [|done].
  rewrite bind_run. simpl. unfold load_state_dict. by case_decide.
Qed.

Lemma with_children_nil (w : World Tensor) : with_children [] w = w.
Proof.
  destruct w as [[cb mods] wr tr]. unfold with_children. simpl.
  by rewrite app_nil_r.
Qed.

Lemma with_children_cons cs (d : ChildDicts Tensor) w :
  with_children (cs :: d) w = with_children d (with_children [cs] w).
Proof.
  unfold with_children. simpl. f_equal. by rewrite <- app_assoc.
Qed.

Lemma load_children_cons child (sd : StateDict) (d : ChildDicts Tensor) w :
  load_children ((child, sd) :: d) w =
  match load_child child sd w with
  | (w', inl e) => (w', inl e)
  | (w', inr _) => load_children d w'
  end.
Proof. done. Qed.

Lemma install_cons cs (d : ChildDicts Tensor) mods :
  install (cs :: d) mods = install d (<[cs.1 := cs.2]> mods).
Proof. done. Qed.

Lemma install_lookup_notin (d : ChildDicts Tensor) mods child :
  child ∉ d.*1 → install d mods !! child = mods !! child.
Proof.
  revert mods. induction d as [|[c sd] d IH]; intros mods Hc; [done|].
  rewrite fmap_cons in Hc. apply not_elem_of_cons in Hc as [Hne Hc].
  rewrite install_cons, IH by done. by rewrite lookup_insert_ne.
Qed.

Lemma install_lookup (d : ChildDicts Tensor) mods child :
  NoDup d.*1 →
  install d mods !! child =
  match dd_get child d with Some sd => Some sd | None => mods !! child end.
Proof.
  revert mods. induction d as [|[c sd] d IH]; intros mods Hnd; [done|].
  rewrite fmap_cons in Hnd. apply NoDup_cons in Hnd as [Hc Hnd].
  rewrite install_cons. simpl.
  destruct (String.eqb_spec c child) as [->|Hne].
  - rewrite install_lookup_notin by done. apply lookup_insert_eq.
  - rewrite IH by done. destruct (dd_get child d); [done|].
    by rewrite lookup_insert_ne.
Qed.

Lemma child_ready_insert (mods : gmap string StateDict) c (sd : StateDict) cs :
  c ≠ cs.1 → child_ready (<[c := sd]> mods) cs ↔ child_ready mods cs.
Proof. intros Hne. unfold child_ready. by rewrite lookup_insert_ne. Qed.

(** The children loop returns exactly when every child of the partition is
    a submodule of the model with the partition's parameter names. *)
Lemma load_children_inr (d : ChildDicts Tensor) w w' :
  NoDup d.*1 →
  load_children d w = (w', inr ()) ↔
  Forall (child_ready (_modules (model w))) d ∧ w' = with_children d w.
Proof.
  revert w. induction d as [|[child sd] d IH]; intros w Hnd.
  - simpl. rewrite with_children_nil. split.
    + intros [= <-]. by split.
    + by intros [_ ->].
  - apply NoDup_cons in Hnd as [Hc Hnd].
    rewrite load_children_cons, load_child_run, Forall_cons,
      (with_children_cons (child, sd) d).
    assert (Forall (child_ready (_modules (model (with_children [(child, sd)] w)))) d ↔
            Forall (child_ready (_modules (model w))) d) as Hsame.
    { rewrite !Forall_forall. apply forall_proper. intros cs.
      split; intros H Hin; specialize (H Hin); revert H; simpl;
        unfold install; simpl; apply child_ready_insert;
        intros ->; apply Hc, list_elem_of_fmap; by exists cs. }
    destruct (_modules (model w) !! child) as [module|] eqn:Hm.
    + case_decide as Hdom.
      * rewrite IH, Hsame by done. split; [|intros [[_ ?] ?]; by split].
        intros [? ?]. split_and!; [|done..]. by exists module.
      * split; [done|]. intros [[(module' & Hm' & Hdom') _] _].
        simpl in Hm', Hdom'. rewrite Hm in Hm'. injection Hm' as <-. done.
    + split; [done|]. intros [[(module' & Hm' & _) _] _].
      simpl in Hm'. congruence.
Qed.

(** ** One iteration of the loop *)

Lemma head_partition_NoDup path : NoDup (head_partition disk path).*1.
Proof.
  unfold head_partition. destruct (checkpoint_at disk path) as [c|]; [|constructor].
  destruct (children_state_dicts c) as [e|d] eqn:Hd; [constructor|].
  eapply children_loop_NoDup; [exact Hd|constructor].
Qed.

Lemma checkpoint_at_load path w :
  torch_load_model disk path w =
  match checkpoint_at disk path with
  | Some checkpoint => (logged (EvTorchLoad path) w, inr checkpoint)
  | None =>
      (logged (EvTorchLoad path) w,
       inl (match disk !! path with
            | Some _ => ModelKeyError path
            | None => LoadError path
            end))
  end.
Proof.
  rewrite torch_load_model_run. unfold checkpoint_at.
  destruct (disk !! path) as [obj|]; [|done]. simpl. by destruct (obj !! "model").
Qed.

(** The iteration once its checkpoint is loaded and its slot accepts the
    body partition. *)
Lemma loop_body_loaded i path w checkpoint slot :
  checkpoint_at disk path = Some checkpoint →
  bodies (Conv_Body (model w)) !! i = Some slot →
  dom (body_state_dict checkpoint) = dom slot →
  loop_body disk args i path w =
  let w1 := with_body i (body_state_dict checkpoint) (logged (EvTorchLoad path) w) in
  if decide (Z.of_nat i = head_weights_index args) then
    match children_state_dicts checkpoint with
    | inl e => (w1, inl e)
    | inr d => load_children d w1
    end
  else (w1, inr ()).
Proof.
  intros Hc Hs Hdom. unfold loop_body.
  rewrite bind_run, checkpoint_at_load, Hc, bind_run, load_body_run. simpl.
  rewrite Hs, decide_True by done.
  case_decide; [|done]. by destruct (children_state_dicts checkpoint).
Qed.

Lemma loop_body_inr i path w w' :
  loop_body disk args i path w = (w', inr ()) ↔
  step_ready disk args (model w) i path ∧ w' = step_world disk args i path w.
Proof.
  unfold step_ready, step_world, head_partition. split.
  - unfold loop_body. rewrite bind_run, checkpoint_at_load.
    destruct (checkpoint_at disk path) as [c|] eqn:Hc; [|done].
    rewrite bind_run, load_body_run. simpl.
    destruct (bodies (Conv_Body (model w)) !! i) as [slot|] eqn:Hs; [|done].
    case_decide as Hdom; [|done]. case_decide as Hi.
    + destruct (children_state_dicts c) as [e|d] eqn:Hd; [done|].
      intros [Hready ->]%load_children_inr;
        [|eapply children_loop_NoDup; [exact Hd|constructor]].
      split; [|done]. exists c, slot. split_and!; [done..|]. intros _. by exists d.
    + intros [= <-]. rewrite with_children_nil. split; [|done].
      exists c, slot. by split_and!.
  - intros [(c & slot & Hc & Hs & Hdom & Hhead) ->].
    rewrite (loop_body_loaded _ _ _ _ _ Hc Hs Hdom), Hc. simpl.
    case_decide as Hi; [|by rewrite with_children_nil].
    destruct (Hhead Hi) as (d & Hd & Hready). rewrite Hd.
    apply load_children_inr; [eapply children_loop_NoDup; [exact Hd|constructor]|done].
Qed.

(** ** What the loop leaves alone *)

Lemma loop_frame_refl (w : World Tensor) : loop_frame w w.
Proof. split_and!; try done. exists []. by rewrite app_nil_r. Qed.

Lemma loop_frame_trans (w1 w2 w3 : World Tensor) :
  loop_frame w1 w2 → loop_frame w2 w3 → loop_frame w1 w3.
Proof.
  intros (? & ? & ? & ? & evs & ? & ?) (? & ? & ? & ? & evs' & ? & ?).
  split_and!; try congruence. exists (evs ++ evs'). split.
  - rewrite app_assoc. congruence.
  - by apply Forall_app.
Qed.

Lemma loop_frame_logged ev (w : World Tensor) :
  is_save ev = false → is_hook ev = false → loop_frame w (logged ev w).
Proof.
  intros ? ?. split_and!; try done. exists [ev]. split; [done|].
  by repeat constructor.
Qed.

Lemma loop_frame_with_body i (sd : StateDict) w : loop_frame w (with_body i sd w).
Proof.
  split_and!; try done; simpl.
  - apply length_insert.
  - exists [EvLoadBody i]. split; [done|]. by repeat constructor.
Qed.

Lemma loop_frame_with_children (d : ChildDicts Tensor) w :
  loop_frame w (with_children d w).
Proof.
  split_and!; try done; simpl. eexists. split; [done|].
  apply Forall_fmap, Forall_true. done.
Qed.

Lemma load_children_frame (d : ChildDicts Tensor) w :
  loop_frame w (load_children d w).1.
Proof.
  revert w. induction d as [|[child sd] d IH]; intros w; [apply loop_frame_refl|].
  rewrite load_children_cons, load_child_run.
  destruct (_modules (model w) !! child) as [module|]; [|apply loop_frame_refl].
  case_decide.
  - eapply loop_frame_trans; [|apply IH]. apply loop_frame_with_children.
  - by apply loop_frame_logged.
Qed.

Lemma loop_body_frame i path w : loop_frame w (loop_body disk args i path w).1.
Proof.
  unfold loop_body. rewrite bind_run, checkpoint_at_load.
  destruct (checkpoint_at disk path) as [c|]; [|by apply loop_frame_logged].
  eapply loop_frame_trans; [by apply (loop_frame_logged (EvTorchLoad path))|].
  rewrite bind_run, load_body_run.
  destruct (bodies _ !! i) as [slot|]; [|apply loop_frame_refl].
  case_decide; [|by apply loop_frame_logged].
  eapply loop_frame_trans; [apply loop_frame_with_body|].
  case_decide; [|apply loop_frame_refl].
  destruct (children_state_dicts c); [apply loop_frame_refl|].
  apply load_children_frame.
Qed.

Lemma assembly_loop_cons i path r w :
  assembly_loop disk args i (path :: r) w =
  match loop_body disk args i path w with
  | (w', inl e) => (w', inl e)
  | (w', inr _) => assembly_loop disk args (S i) r w'
  end.
Proof. done. Qed.

Lemma assembly_loop_frame paths i w :
  loop_frame w (assembly_loop disk args i paths w).1.
Proof.
  revert i w. induction paths as [|path r IH]; intros i w; [apply loop_frame_refl|].
  rewrite assembly_loop_cons.
  pose proof (loop_body_frame i path w) as H.
  destruct (loop_body disk args i path w) as [w1 [e|[]]]; [done|].
  eapply loop_frame_trans; [exact H|apply IH].
Qed.

(** ** The loop *)

Lemma step_ready_stable (m m' : Model Tensor) j path :
  bodies (Conv_Body m') !! j = bodies (Conv_Body m) !! j →
  (Z.of_nat j = head_weights_index args → _modules m' = _modules m) →
  step_ready disk args m j path → step_ready disk args m' j path.
Proof.
  intros Hb Hm (c & slot & Hc & Hs & Hdom & Hhead).
  exists c, slot. split_and!; [done|congruence|done|].
  intros Hj. rewrite (Hm Hj). by apply Hhead.
Qed.

Lemma step_world_ready i path w j p :
  i < j →
  step_ready disk args (model (step_world disk args i path w)) j p ↔
  step_ready disk args (model w) j p.
Proof.
  intros Hij. split; apply step_ready_stable; simpl.
  - by rewrite list_lookup_insert_ne by lia.
  - intros Hj. rewrite decide_False by lia. done.
  - by rewrite list_lookup_insert_ne by lia.
  - intros Hj. rewrite decide_False by lia. done.
Qed.

(** The loop returns exactly when every iteration is ready on the model it
    starts from, and then it leaves [loop_world]. *)
Lemma assembly_loop_inr paths i w w' :
  assembly_loop disk args i paths w = (w', inr ()) ↔
  (∀ k path, paths !! k = Some path →
             step_ready disk args (model w) (i + k) path) ∧
  w' = loop_world disk args i paths w.
Proof.
  revert i w. induction paths as [|p r IH]; intros i w.
  - simpl. split; [intros [= <-]; by split|by intros [_ ->]].
  - rewrite assembly_loop_cons. simpl loop_world.
    destruct (loop_body disk args i p w) as [w1 [e|[]]] eqn:Hstep.
    + split; [done|]. intros [Hall _].
      specialize (Hall 0 p eq_refl). rewrite Nat.add_0_r in Hall.
      assert (loop_body disk args i p w = (step_world disk args i p w, inr ())) as H
        by (by apply loop_body_inr).
      congruence.
    + apply loop_body_inr in Hstep as [Hready ->]. rewrite IH.
      split; intros [Hall ->]; (split; [|done]).
      * intros [|k] path Hk.
        -- injection Hk as <-. by rewrite Nat.add_0_r.
        -- rewrite Nat.add_succ_r. eapply step_world_ready; [|by apply (Hall k)]. lia.
      * intros k path Hk. apply step_world_ready; [lia|].
        replace (S i + k) with (i + S k) by lia. by apply (Hall (S k)).
Qed.

Lemma loop_world_trace paths i w :
  trace (loop_world disk args i paths w) = trace w ++ loop_events disk args i paths.
Proof.
  revert i w. induction paths as [|p r IH]; intros i w; simpl.
  - by rewrite app_nil_r.
  - rewrite IH. simpl. rewrite <- !(assoc_L (++)). simpl. do 3 f_equal.
    by case_decide.
Qed.

Lemma step_world_frame i path w : loop_frame w (step_world disk args i path w).
Proof.
  unfold step_world.
  eapply loop_frame_trans; [by apply (loop_frame_logged (EvTorchLoad path))|].
  eapply loop_frame_trans; [apply loop_frame_with_body|].
  apply loop_frame_with_children.
Qed.

Lemma loop_world_frame paths i w : loop_frame w (loop_world disk args i paths w).
Proof.
  revert i w. induction paths as [|p r IH]; intros i w; [apply loop_frame_refl|].
  eapply loop_frame_trans; [apply step_world_frame|apply IH].
Qed.

Lemma loop_world_bodies_out paths i w j :
  (j < i ∨ i + length paths ≤ j)%nat →
  bodies (Conv_Body (model (loop_world disk args i paths w))) !! j =
  bodies (Conv_Body (model w)) !! j.
Proof.
  revert i w. induction paths as [|p r IH]; intros i w Hj; [done|].
  simpl in *. rewrite IH by lia. simpl. by rewrite list_lookup_insert_ne by lia.
Qed.

Lemma loop_world_bodies_in paths i w k path :
  paths !! k = Some path →
  i + k < length (bodies (Conv_Body (model w))) →
  bodies (Conv_Body (model (loop_world disk args i paths w))) !! (i + k) =
  Some (body_state_dict (default [] (checkpoint_at disk path))).
Proof.
  revert i w k. induction paths as [|p r IH]; intros i w k Hk Hlen; [done|].
  destruct k as [|k]; simpl in *.
  - injection Hk as ->. rewrite Nat.add_0_r in *.
    rewrite loop_world_bodies_out by lia. simpl.
    by rewrite list_lookup_insert_eq.
  - rewrite Nat.add_succ_r. apply (IH (S i)); [done|].
    simpl. rewrite length_insert. lia.
Qed.

Lemma loop_world_modules_none paths i w :
  (∀ k, k < length paths → Z.of_nat (i + k) ≠ head_weights_index args) →
  _modules (model (loop_world disk args i paths w)) = _modules (model w).
Proof.
  revert i w. induction paths as [|p r IH]; intros i w Hk; [done|].
  simpl. rewrite IH.
  - simpl. rewrite decide_False; [done|].
    specialize (Hk 0). rewrite Nat.add_0_r in Hk. apply Hk. simpl. lia.
  - intros k Hlt. specialize (Hk (S k)). rewrite Nat.add_succ_r in Hk.
    apply Hk. simpl. lia.
Qed.

Lemma loop_world_modules_at paths i w k path :
  paths !! k = Some path →
  Z.of_nat (i + k) = head_weights_index args →
  _modules (model (loop_world disk args i paths w)) =
  install (head_partition disk path) (_modules (model w)).
Proof.
  revert i w k. induction paths as [|p r IH]; intros i w k Hk Hi; [done|].
  destruct k as [|k]; simpl in *.
  - injection Hk as ->. rewrite Nat.add_0_r in Hi.
    rewrite loop_world_modules_none by (intros; lia).
    simpl. by rewrite decide_True.
  - rewrite Nat.add_succ_r in Hi. rewrite (IH (S i) _ k) by done.
    simpl. rewrite decide_False by lia. done.
Qed.

Lemma assembly_loop_app l1 l2 i w :
  assembly_loop disk args i (l1 ++ l2) w =
  match assembly_loop disk args i l1 w with
  | (w1, inl e) => (w1, inl e)
  | (w1, inr _) => assembly_loop disk args (i + length l1) l2 w1
  end.
Proof.
  revert i w. induction l1 as [|p r IH]; intros i w.
  - simpl. by rewrite Nat.add_0_r.
  - change ((p :: r) ++ l2) with (p :: (r ++ l2)). rewrite !assembly_loop_cons.
    destruct (loop_body disk args i p w) as [w1 [e|[]]]; [done|].
    rewrite IH. simpl. by rewrite Nat.add_succ_r.
Qed.

Lemma load_children_app (d1 d2 : ChildDicts Tensor) w :
  load_children (d1 ++ d2) w =
  match load_children d1 w with
  | (w1, inl e) => (w1, inl e)
  | (w1, inr _) => load_children d2 w1
  end.
Proof.
  revert w. induction d1 as [|[child sd] d1 IH]; intros w; [done|].
  change (((child, sd) :: d1) ++ d2) with ((child, sd) :: (d1 ++ d2)).
  rewrite !load_children_cons.
  destruct (load_child child sd w) as [w1 [e|[]]]; [done|]. apply IH.
Qed.

(** ** The errors each part can raise *)




(** ** The whole run *)

Lemma post_init_run w :
  post_init init_conv_select_index_ args w =
  if is_ConcatenateConv (Conv_Body (model w)) then
    match init_conv_select_index_ (head_weights_index args) (Conv_Body (model w)) with
    | None =>
        (logged (EvInitConvSelect (head_weights_index args)) w,
         inl (HookError (head_weights_index args)))
    | Some cb => (with_conv_body args cb w, inr ())
    end
  else (w, inr ()).
Proof.
  unfold post_init. rewrite bind_run. simpl.
  destruct (is_ConcatenateConv (Conv_Body (model w))); [|done].
  rewrite bind_run. simpl.
  by destruct (init_conv_select_index_ _ _).
Qed.

Lemma main_run w :
  main disk init_conv_select_index_ args w =
  match assembly_loop disk args 0 (body_checkpoints args) w with
  | (w1, inl e) => (w1, inl e)
  | (w1, inr _) =>
      if is_ConcatenateConv (Conv_Body (model w1)) then
        match init_conv_select_index_ (head_weights_index args) (Conv_Body (model w1)) with
        | None =>
            (logged (EvInitConvSelect (head_weights_index args)) w1,
             inl (HookError (head_weights_index args)))
        | Some cb => (saved args (with_conv_body args cb w1), inr ())
        end
      else (saved args w1, inr ())
  end.
Proof.
  unfold main. rewrite bind_run.
  destruct (assembly_loop _ _ _ _ _) as [w1 [e|[]]]; [done|].
  rewrite bind_run, post_init_run.
  destruct (is_ConcatenateConv (Conv_Body (model w1))); [|done].
  by destruct (init_conv_select_index_ _ _).
Qed.

Lemma not_save_in_frame (w w' : World Tensor) path :
  loop_frame w w' → EvTorchSave path ∈ trace w' → EvTorchSave path ∈ trace w.
Proof.
  intros (_ & _ & _ & _ & evs & -> & Hevs) [?|Hin]%elem_of_app; [done|].
  rewrite Forall_forall in Hevs. by destruct (Hevs _ Hin).
Qed.

Lemma not_hook_in_frame (w w' : World Tensor) index :
  loop_frame w w' →
  EvInitConvSelect index ∈ trace w' → EvInitConvSelect index ∈ trace w.
Proof.
  intros (_ & _ & _ & _ & evs & -> & Hevs) [?|Hin]%elem_of_app; [done|].
  rewrite Forall_forall in Hevs. by destruct (Hevs _ Hin).
Qed.

(** A run that raises has written nothing and has not called [torch.save]. *)
Lemma main_raises_nothing_written w e :
  (main disk init_conv_select_index_ args w).2 = inl e →
  written (main disk init_conv_select_index_ args w).1 = written w ∧
  ∀ path, EvTorchSave path ∈ trace (main disk init_conv_select_index_ args w).1 →
          EvTorchSave path ∈ trace w.
Proof.
  rewrite main_run.
  pose proof (assembly_loop_frame (body_checkpoints args) 0 w) as Hf.
  destruct (assembly_loop _ _ _ _ _) as [w1 [e1|[]]]; simpl in *.
  - intros _. split; [by destruct Hf|]. intros path. by apply not_save_in_frame.
  - destruct (is_ConcatenateConv (Conv_Body (model w1))); [|done].
    destruct (init_conv_select_index_ _ _); [done|]. simpl. intros _.
    split; [by destruct Hf|]. intros path [Hin|Hin]%elem_of_app.
    + by eapply not_save_in_frame.
    + by apply list_elem_of_singleton in Hin.
Qed.

Lemma loop_events_frame paths i :
  Forall (λ ev, is_save ev = false ∧ is_hook ev = false)
    (loop_events disk args i paths).
Proof.
  revert i. induction paths as [|p r IH]; intros i; simpl; [constructor|].
  do 2 (constructor; [done|]). apply Forall_app. split; [|apply IH].
  case_decide; [|constructor]. apply Forall_fmap, Forall_true. done.
Qed.

Lemma loop_events_bodies paths i k :
  k < length paths → EvLoadBody (i + k) ∈ loop_events disk args i paths.
Proof.
  revert i k. induction paths as [|p r IH]; intros i k Hk; simpl in *; [lia|].
  destruct k as [|k].
  - rewrite Nat.add_0_r. right. left.
  - do 2 right. apply elem_of_app. right.
    rewrite Nat.add_succ_r. apply (IH (S i)). lia.
Qed.

Lemma assembly_loop_initial m0 w1 :
  assembly_loop disk args 0 (body_checkpoints args) (initial m0) = (w1, inr ()) →
  w1 = loop_world disk args 0 (body_checkpoints args) (initial m0) ∧
  trace w1 = loop_events disk args 0 (body_checkpoints args) ∧
  written w1 = ∅ ∧
  muxer_params (Conv_Body (model w1)) = muxer_params (Conv_Body m0) ∧
  is_ConcatenateConv (Conv_Body (model w1)) = is_ConcatenateConv (Conv_Body m0) ∧
  length (bodies (Conv_Body (model w1))) = length (bodies (Conv_Body m0)).
Proof.
  intros [_ ->]%assembly_loop_inr.
  pose proof (loop_world_frame (body_checkpoints args) 0 (initial m0))
    as (? & ? & ? & ? & _).
  by rewrite loop_world_trace.
Qed.

(** C5.  A run that raises, at whichever step, has written no file and has
    not called [torch.save].  When [torch.save] is called it is the last
    call of the run, the run returns, and the call comes after the whole
    loop: every body checkpoint has been loaded into its slot before. *)
Theorem output_written_only_after_assembly (m0 : Model Tensor) :
  let r := main disk init_conv_select_index_ args (initial m0) in
  (∀ e, r.2 = inl e →
        written r.1 = ∅ ∧ ∀ path, EvTorchSave path ∉ trace r.1) ∧
  (∀ path, EvTorchSave path ∈ trace r.1 →
     r.2 = inr () ∧ path = output_model args ∧
     ∃ evs,
       trace r.1 =
         loop_events disk args 0 (body_checkpoints args) ++ evs ++
         [EvTorchSave path] ∧
       (∀ q, EvTorchSave q ∉
             loop_events disk args 0 (body_checkpoints args) ++ evs) ∧
       (∀ i, i < length (body_checkpoints args) →
             EvLoadBody i ∈ loop_events disk args 0 (body_checkpoints args))).
Proof.
  simpl. split.
  - intros e He. destruct (main_raises_nothing_written _ _ He) as [Hw Ht].
    split; [done|]. intros path Hin. by apply Ht, elem_of_nil in Hin.
  - intros path. rewrite main_run.
    pose proof (assembly_loop_frame (body_checkpoints args) 0 (initial m0)) as Hf.
    pose proof (loop_events_frame (body_checkpoints args) 0) as Hev.
    rewrite Forall_forall in Hev.
    assert (∀ q evs, (∀ ev, ev ∈ evs → is_save ev = false) →
              EvTorchSave q ∉ loop_events disk args 0 (body_checkpoints args) ++ evs)
      as Hnot.
    { intros q evs Hevs [Hin|Hin]%elem_of_app.
      - by destruct (Hev _ Hin).
      - by specialize (Hevs _ Hin). }
    destruct (assembly_loop _ _ _ _ _) as [w1 [e|[]]] eqn:Hloop; simpl.
    { intros Hin. by apply (not_save_in_frame _ _ _ Hf), elem_of_nil in Hin. }
    apply assembly_loop_initial in Hloop as (_ & Htr & _).
    destruct (is_ConcatenateConv (Conv_Body (model w1))).
    + destruct (init_conv_select_index_ _ _); simpl; rewrite Htr.
      * intros [[Hin|Hin]%elem_of_app|Hin%list_elem_of_singleton]%elem_of_app.
        -- by destruct (Hev _ Hin).
        -- by apply list_elem_of_singleton in Hin.
        -- injection Hin as ->. split_and!; [done..|].
           exists [EvInitConvSelect (head_weights_index args)].
           split_and!; [by rewrite <- (assoc_L (++))| |].
           ++ intros q. apply Hnot. by intros ev ->%list_elem_of_singleton.
           ++ intros i Hi. by apply (loop_events_bodies _ 0 i).
      * intros [Hin|Hin]%elem_of_app.
        -- by destruct (Hev _ Hin).
        -- by apply list_elem_of_singleton in Hin.
    + simpl. rewrite Htr. intros [Hin|Hin%list_elem_of_singleton]%elem_of_app.
      * by destruct (Hev _ Hin).
      * injection Hin as ->. split_and!; [done..|]. exists [].
        split_and!; [done| |].
        -- intros q. apply Hnot. by intros ev ?%elem_of_nil.
        -- intros i Hi. by apply (loop_events_bodies _ 0 i).
Qed.

(** C8.  For a model whose body muxer is not the concatenate-and-select
    variant the post-assembly step returns at once and leaves the world as
    it is.  For the concatenate-and-select variant the step makes exactly
    one call, [init_conv_select_index_] with the head-weights index, and on
    return the muxer is what that call produced, the head children are
    untouched.  In a whole run the call is made exactly when the loop has
    returned and the model is of that variant, and only with that index. *)
Theorem post_init_iff_ConcatenateConv (m0 : Model Tensor) :
  (∀ w, is_ConcatenateConv (Conv_Body (model w)) = false →
        post_init init_conv_select_index_ args w = (w, inr ())) ∧
  (∀ w, is_ConcatenateConv (Conv_Body (model w)) = true →
        let r := post_init init_conv_select_index_ args w in
        trace r.1 = trace w ++ [EvInitConvSelect (head_weights_index args)] ∧
        written r.1 = written w ∧
        _modules (model r.1) = _modules (model w) ∧
        (r.2 = inr () →
         init_conv_select_index_ (head_weights_index args) (Conv_Body (model w)) =
         Some (Conv_Body (model r.1)))) ∧
  (∀ index,
     EvInitConvSelect index ∈
       trace (main disk init_conv_select_index_ args (initial m0)).1 ↔
     (∃ w1, assembly_loop disk args 0 (body_checkpoints args) (initial m0) =
            (w1, inr ())) ∧
     is_ConcatenateConv (Conv_Body m0) = true ∧
     index = head_weights_index args).
Proof.
  split_and!.
  - intros w Hk. by rewrite post_init_run, Hk.
  - intros w Hk. simpl. rewrite post_init_run, Hk.
    destruct (init_conv_select_index_ _ _); simpl; by split_and!.
  - intros index. rewrite main_run.
    pose proof (assembly_loop_frame (body_checkpoints args) 0 (initial m0)) as Hf.
    pose proof (loop_events_frame (body_checkpoints args) 0) as Hev.
    rewrite Forall_forall in Hev.
    destruct (assembly_loop _ _ _ _ _) as [w1 [e|[]]] eqn:Hloop; simpl.
    { split; [|by intros [[? [=]] _]].
      intros Hin. by apply (not_hook_in_frame _ _ _ Hf), elem_of_nil in Hin. }
    apply assembly_loop_initial in Hloop as (_ & Htr & _ & _ & Hk & _).
    rewrite Hk. destruct (is_ConcatenateConv (Conv_Body m0)).
    + assert (EvInitConvSelect index ∈
                trace w1 ++ [EvInitConvSelect (head_weights_index args)] ↔
              index = head_weights_index args) as Hiff.
      { rewrite Htr, elem_of_app, list_elem_of_singleton. split.
        - intros [Hin|[= ->]]; [by destruct (Hev _ Hin)|done].
        - intros ->. by right. }
      destruct (init_conv_select_index_ _ _); simpl.
      * rewrite elem_of_app, Hiff, list_elem_of_singleton.
        split; [intros [->|[=]]; by eauto|intros (_ & _ & ->); by left].
      * rewrite Hiff. split; [intros ->; by eauto|by intros (_ & _ & ->)].
    + simpl. rewrite Htr, elem_of_app, list_elem_of_singleton.
      split; [|by intros (_ & [=] & _)].
      intros [Hin|[=]]. by destruct (Hev _ Hin).
Qed.

(** ** Which submodules a completed loop has populated *)

Lemma populations_app l1 l2 :
  populations (l1 ++ l2) = populations l1 ++ populations l2.
Proof. apply omap_app. Qed.

Lemma populations_children (cs : list string) :
  populations (EvLoadChild <$> cs) = inr <$> cs.
Proof. induction cs as [|c cs IH]; [done|]. rewrite !fmap_cons, <- IH. done. Qed.

Lemma populations_loop_events_cons i p r :
  populations (loop_events disk args i (p :: r)) =
  inl i ::
  (if decide (Z.of_nat i = head_weights_index args)
   then inr <$> (head_partition disk p).*1 else []) ++
  populations (loop_events disk args (S i) r).
Proof.
  simpl. unfold populations at 1. simpl. f_equal.
  change (omap population ?l) with (populations l).
  rewrite populations_app. f_equal.
  case_decide; [apply populations_children|done].
Qed.


Lemma populations_loop_child paths i child :
  inr child ∈ populations (loop_events disk args i paths) ↔
  ∃ k path, paths !! k = Some path ∧
            Z.of_nat (i + k) = head_weights_index args ∧
            child ∈ (head_partition disk path).*1.
Proof.
  revert i. induction paths as [|p r IH]; intros i.
  - simpl. split; [by intros ?%elem_of_nil|by intros (? & ? & [=] & _)].
  - rewrite populations_loop_events_cons, elem_of_cons, elem_of_app, IH. split.
    + intros [[=]|[Hin|(k & path & Hk & Hi & Hc)]].
      * case_decide as Hi; [|by apply elem_of_nil in Hin].
        apply list_elem_of_fmap in Hin as (c & [= ->] & Hc).
        exists 0, p. by rewrite Nat.add_0_r.
      * exists (S k), path. by rewrite Nat.add_succ_r.
    + intros ([|k] & path & Hk & Hi & Hc); right.
      * injection Hk as ->. rewrite Nat.add_0_r in Hi. left.
        rewrite decide_True by done. apply list_elem_of_fmap. by exists child.
      * right. exists k, path. by rewrite Nat.add_succ_r in Hi.
Qed.


Lemma head_partition_eq path checkpoint (d : ChildDicts Tensor) :
  checkpoint_at disk path = Some checkpoint →
  children_state_dicts checkpoint = inr d →
  head_partition disk path = d.
Proof. intros Hc Hd. unfold head_partition. by rewrite Hc, Hd. Qed.

Lemma head_leaf_origin (checkpoint : Checkpoint Tensor) (d : ChildDicts Tensor)
    child (sd : StateDict) k v :
  children_state_dicts checkpoint = inr d →
  dd_get child d = Some sd → sd !! k = Some v →
  ((child ++ String dot k)%string, v) ∈ checkpoint ∧
  is_body_key (child ++ String dot k)%string = false.
Proof.
  intros Hd Hc Hk.
  assert (dd_leaf d child k = Some v) as Hl by (unfold dd_leaf; by rewrite Hc).
  apply (children_loop_leaf _ _ _ Hd) in Hl as [Hl|(key & Hin & Hb & Hs)].
  { by rewrite dd_leaf_nil in Hl. }
  apply split1_pair, cut_Some in Hs as [-> _]. done.
Qed.


(** ** Runs that stop, and runs that no check stops *)

Lemma elem_of_populations ev x tr :
  ev ∈ tr → population ev = Some x → x ∈ populations tr.
Proof. intros Hin Hp. apply list_elem_of_omap. by exists ev. Qed.




(** C7.  Let the head partition of the checkpoint at the head-weights index
    name a child that is no submodule of the model.  Then the run raises,
    writes nothing and never calls [torch.save].  When the checkpoints up
    to that index load and fit their slots and the children listed before
    that child are submodules with the partition's parameter names, the
    run raises the lookup error of line 78 for that child. *)
Theorem unknown_head_child_fails (m0 : Model Tensor) path checkpoint
    (d : ChildDicts Tensor) child :
  (0 ≤ head_weights_index args)%Z →
  body_checkpoints args !! Z.to_nat (head_weights_index args) = Some path →
  checkpoint_at disk path = Some checkpoint →
  children_state_dicts checkpoint = inr d →
  child ∈ d.*1 →
  _modules m0 !! child = None →
  let r := main disk init_conv_select_index_ args (initial m0) in
  (∃ e, r.2 = inl e) ∧
  written r.1 = ∅ ∧
  (∀ p, EvTorchSave p ∉ trace r.1) ∧
  ((∀ k p, (k ≤ Z.to_nat (head_weights_index args))%nat →
           body_checkpoints args !! k = Some p →
           ∃ c slot, checkpoint_at disk p = Some c ∧
                     bodies (Conv_Body m0) !! k = Some slot ∧
                     dom (body_state_dict c) = dom slot) →
   (∀ d1 sd d2, d = d1 ++ (child, sd) :: d2 →
                Forall (child_ready (_modules m0)) d1) →
   r.2 = inl (UnknownChildError child)).
Proof.
  intros Hidx Hp Hc Hd Hchild Hnone. simpl.
  set (n := Z.to_nat (head_weights_index args)) in *.
  assert (Z.of_nat n = head_weights_index args) as Hn by lia.
  pose proof (children_loop_NoDup _ _ _ Hd (NoDup_nil_2 (A:=string))) as Hnd.
  assert (∃ e, (main disk init_conv_select_index_ args (initial m0)).2 = inl e)
    as [e He].
  { rewrite main_run.
    destruct (assembly_loop _ _ _ _ _) as [w1 [e|[]]] eqn:Hloop; [by eexists|].
    apply assembly_loop_inr in Hloop as [Hready _].
    destruct (Hready _ _ Hp) as (c & _ & Hc' & _ & _ & Hhead).
    destruct (Hhead Hn) as (d' & Hd' & Hall).
    assert (d' = d) as -> by congruence.
    apply list_elem_of_fmap in Hchild as ([c' sd] & -> & Hin).
    rewrite Forall_forall in Hall.
    destruct (Hall _ Hin) as (module & Hm & _). simpl in Hm, Hnone. congruence. }
  destruct (main_raises_nothing_written _ _ He) as [Hw Ht].
  split_and!; [by eexists|done| |].
  { intros p Hin. by apply Ht, elem_of_nil in Hin. }
  intros Hbodies Hbefore.
  apply list_elem_of_fmap in Hchild as ([c' sd] & Hc' & Hin). simpl in Hc'. subst c'.
  apply list_elem_of_split in Hin as (d1 & d2 & ->).
  specialize (Hbefore d1 sd d2 eq_refl).
  rewrite fmap_app, fmap_cons in Hnd. simpl in Hnd.
  apply NoDup_app in Hnd as (Hnd1 & Hnotin & _).
  assert (child ∉ d1.*1) as Hfresh by (intros Hin; apply (Hnotin _ Hin); left).
  rewrite main_run, <- (take_drop_middle _ _ _ Hp), assembly_loop_app.
  assert (length (take n (body_checkpoints args)) = n) as Htake.
  { rewrite length_take. apply lookup_lt_Some in Hp. lia. }
  set (pre := take n (body_checkpoints args)) in *.
  assert (∀ k, k < length pre → Z.of_nat (0 + k) ≠ head_weights_index args) as Hne
    by (intros k Hk; simpl; lia).
  assert (assembly_loop disk args 0 pre (initial m0) =
          (loop_world disk args 0 pre (initial m0), inr ())) as Hpre.
  { apply assembly_loop_inr. split; [|done]. intros k p Hk. simpl.
    pose proof (lookup_lt_Some _ _ _ Hk) as Hlk.
    unfold pre in Hk. rewrite lookup_take_lt in Hk by lia.
    destruct (Hbodies k p) as (c & slot & ? & ? & ?); [lia|done|].
    exists c, slot. split_and!; [done..|]. intros Hi. by destruct (Hne k). }
  rewrite Hpre, assembly_loop_cons. change (0 + length pre) with (length pre).
  rewrite Htake.
  destruct (Hbodies n path) as (c & slot & Hc' & Hs & Hdom); [lia|done|].
  assert (c = checkpoint) as -> by congruence.
  set (w1 := loop_world disk args 0 pre (initial m0)).
  assert (_modules (model w1) = _modules m0) as Hmods
    by (by apply (loop_world_modules_none pre 0 (initial m0))).
  rewrite (loop_body_loaded n path w1 checkpoint slot Hc); [|by unfold w1; 
    rewrite loop_world_bodies_out by lia|done].
  simpl. rewrite decide_True, Hd by done.
  rewrite load_children_app.
  set (w2 := with_body n (body_state_dict checkpoint) (logged (EvTorchLoad path) w1)).
  assert (load_children d1 w2 = (with_children d1 w2, inr ())) as ->.
  { apply load_children_inr; [done|]. split; [|done]. simpl. by rewrite Hmods. }
  rewrite load_children_cons, load_child_run. simpl.
  rewrite install_lookup_notin, Hmods, Hnone by done. done.
Qed.

(** ** Where the leaves of the written state come from *)

Lemma routed_heads_NoDup : NoDup (routed_heads disk args).*1.
Proof.
  unfold routed_heads. case_decide; [|constructor].
  destruct (body_checkpoints args !! _); [apply head_partition_NoDup|constructor].
Qed.

Lemma loop_world_modules w :
  _modules (model (loop_world disk args 0 (body_checkpoints args) w)) =
  install (routed_heads disk args) (_modules (model w)).
Proof.
  unfold routed_heads. case_decide as Hidx.
  - destruct (body_checkpoints args !! Z.to_nat (head_weights_index args))
      as [path|] eqn:Hp.
    + apply (loop_world_modules_at _ 0 _ _ path Hp). simpl. lia.
    + apply lookup_ge_None in Hp.
      apply loop_world_modules_none. intros k Hk. simpl. lia.
  - apply loop_world_modules_none. intros k Hk. simpl. lia.
Qed.

Lemma routed_heads_leaf child (sd : StateDict) k v :
  dd_get child (routed_heads disk args) = Some sd → sd !! k = Some v →
  ∃ path checkpoint,
    (0 ≤ head_weights_index args)%Z ∧
    body_checkpoints args !! Z.to_nat (head_weights_index args) = Some path ∧
    checkpoint_at disk path = Some checkpoint ∧
    ((child ++ String dot k)%string, v) ∈ checkpoint.
Proof.
  unfold routed_heads. case_decide as Hidx; [|done].
  destruct (body_checkpoints args !! _) as [path|] eqn:Hp; [|done].
  unfold head_partition.
  destruct (checkpoint_at disk path) as [c|] eqn:Hc; [|done].
  destruct (children_state_dicts c) as [e|d] eqn:Hd; [done|].
  intros Hsd Hk. exists path, c. split_and!; [done..|].
  by eapply head_leaf_origin.
Qed.

(** A run that returns: the loop has returned, then the hook if the model
    calls for it, and the model so obtained is the one written. *)
Lemma main_inr m0 w :
  main disk init_conv_select_index_ args (initial m0) = (w, inr ()) →
  ∃ s,
    written w = {[output_model args := {["model" := s]}]} ∧
    assembly_loop disk args 0 (body_checkpoints args) (initial m0) =
      (loop_world disk args 0 (body_checkpoints args) (initial m0), inr ()) ∧
    _modules s = install (routed_heads disk args) (_modules m0) ∧
    (if is_ConcatenateConv (Conv_Body m0)
     then init_conv_select_index_ (head_weights_index args)
            (Conv_Body (model (loop_world disk args 0 (body_checkpoints args)
                                 (initial m0)))) = Some (Conv_Body s)
     else Conv_Body s =
          Conv_Body (model (loop_world disk args 0 (body_checkpoints args)
                              (initial m0)))).
Proof.
  rewrite main_run.
  destruct (assembly_loop _ _ _ _ _) as [w1 [e|[]]] eqn:Hloop; [done|].
  destruct (assembly_loop_initial _ _ Hloop) as (-> & _ & Hwr & _ & Hkind & _).
  rewrite Hkind. pose proof (loop_world_modules (initial m0)) as Hmods.
  destruct (is_ConcatenateConv (Conv_Body m0)).
  - destruct (init_conv_select_index_ _ _) as [cb|] eqn:Hhook; [|done].
    intros [= <-]. eexists. simpl. rewrite Hwr. split_and!; [done..|by rewrite Hmods|done].
  - intros [= <-]. eexists. simpl. rewrite Hwr. split_and!; [done..|by rewrite Hmods|done].
Qed.

(** C4, as the code has it.  In the state a returning run writes, a head
    child named in the routed head partition holds that partition's
    mapping, whose tensors are items of the checkpoint at the head-weights
    index; every other head child holds what the constructor gave it.  When
    the loop returns, a leaf of slot [i] is the tensor of a body key of
    checkpoint [i] if there is a checkpoint [i], and the constructor's
    otherwise; the muxer's own parameters are the constructor's.  The
    written muxer is the one the loop leaves, or what
    [init_conv_select_index_] makes of it for the concatenate-and-select
    variant. *)
Theorem written_leaf_origin (m0 : Model Tensor) (w : World Tensor) :
  main disk init_conv_select_index_ args (initial m0) = (w, inr ()) →
  ∃ s w1,
    written w = {[output_model args := {["model" := s]}]} ∧
    assembly_loop disk args 0 (body_checkpoints args) (initial m0) = (w1, inr ()) ∧
    (if is_ConcatenateConv (Conv_Body m0)
     then init_conv_select_index_ (head_weights_index args) (Conv_Body (model w1)) =
          Some (Conv_Body s)
     else Conv_Body s = Conv_Body (model w1)) ∧
    muxer_params (Conv_Body (model w1)) = muxer_params (Conv_Body m0) ∧
    (∀ i slot k v,
       bodies (Conv_Body (model w1)) !! i = Some slot → slot !! k = Some v →
       (∃ path checkpoint key,
          body_checkpoints args !! i = Some path ∧
          checkpoint_at disk path = Some checkpoint ∧
          (key, v) ∈ checkpoint ∧
          is_body_key key = true ∧ body_sub_key key = k) ∨
       ((length (body_checkpoints args) ≤ i)%nat ∧
        bodies (Conv_Body m0) !! i = Some slot)) ∧
    (∀ child module k v,
       _modules s !! child = Some module → module !! k = Some v →
       (∃ path checkpoint,
          (0 ≤ head_weights_index args)%Z ∧
          body_checkpoints args !! Z.to_nat (head_weights_index args) = Some path ∧
          checkpoint_at disk path = Some checkpoint ∧
          ((child ++ String dot k)%string, v) ∈ checkpoint) ∨
       ((child ∉ (routed_heads disk args).*1) ∧
        _modules m0 !! child = Some module)).
Proof.
  intros (s & Hwr & Hloop & Hmods & Hcb)%main_inr.
  destruct (assembly_loop_initial _ _ Hloop) as (_ & _ & _ & Hmux & _ & _).
  pose proof Hloop as [Hready _]%assembly_loop_inr. simpl in Hready.
  exists s, (loop_world disk args 0 (body_checkpoints args) (initial m0)).
  split_and!; [done..| |].
  - intros i slot k v Hs Hk.
    destruct (decide (i < length (body_checkpoints args))) as [Hi|Hi].
    + left. destruct (lookup_lt_is_Some_2 _ _ Hi) as [path Hp].
      destruct (Hready _ _ Hp) as (c & slot0 & Hc & Hs0 & _).
      rewrite (loop_world_bodies_in _ 0 _ i path Hp) in Hs
        by (apply lookup_lt_Some in Hs0; simpl in *; lia).
      rewrite Hc in Hs. injection Hs as <-.
      apply body_fold_lookup in Hk as [Hk|(key & ? & ? & ?)]; [done|].
      by exists path, c, key.
    + right. split; [lia|].
      by rewrite loop_world_bodies_out in Hs by (simpl; lia).
  - intros child module k v Hm Hk.
    rewrite Hmods, install_lookup in Hm by apply routed_heads_NoDup.
    destruct (dd_get child (routed_heads disk args)) as [sd|] eqn:Hsd.
    + left. injection Hm as ->. by eapply routed_heads_leaf.
    + right. split; [|done]. intros [? ?]%dd_get_elem_of. congruence.
Qed.

Lemma conv_body_eq (cb cb' : ConvBody Tensor) :
  bodies cb = bodies cb' → muxer_params cb = muxer_params cb' →
  is_ConcatenateConv cb = is_ConcatenateConv cb' → cb = cb'.
Proof. destruct cb, cb'. simpl. by intros -> -> ->. Qed.

Lemma model_eq (m m' : Model Tensor) :
  Conv_Body m = Conv_Body m' → _modules m = _modules m' → m = m'.
Proof. destruct m, m'. simpl. by intros -> ->. Qed.

(** C9, as the code has it.  Take two runs on the same checkpoints, index,
    hook and output path that return, one from each of two constructed
    models.  The written states agree on every head child named in the
    routed head partition, and, when neither model is of the
    concatenate-and-select variant, on every slot that has a checkpoint:
    these leaves are functions of the checkpoints and the index alone.
    When routing covers the models (as many checkpoints as slots, every
    head child named in the routed partition) and the constructors agree on
    the muxer's own parameters and variant, the two written states are
    equal. *)
Theorem written_state_up_to_constructor (m0 m0' : Model Tensor)
    (w w' : World Tensor) :
  main disk init_conv_select_index_ args (initial m0) = (w, inr ()) →
  main disk init_conv_select_index_ args (initial m0') = (w', inr ()) →
  ∃ s s',
    written w = {[output_model args := {["model" := s]}]} ∧
    written w' = {[output_model args := {["model" := s']}]} ∧
    (∀ child, child ∈ (routed_heads disk args).*1 →
              _modules s !! child = _modules s' !! child) ∧
    (is_ConcatenateConv (Conv_Body m0) = false →
     is_ConcatenateConv (Conv_Body m0') = false →
     ∀ i, i < length (body_checkpoints args) →
          bodies (Conv_Body s) !! i = bodies (Conv_Body s') !! i) ∧
    (length (body_checkpoints args) = length (bodies (Conv_Body m0)) →
     length (body_checkpoints args) = length (bodies (Conv_Body m0')) →
     muxer_params (Conv_Body m0) = muxer_params (Conv_Body m0') →
     is_ConcatenateConv (Conv_Body m0) = is_ConcatenateConv (Conv_Body m0') →
     (∀ child, is_Some (_modules m0 !! child) ∨ is_Some (_modules m0' !! child) →
               child ∈ (routed_heads disk args).*1) →
     s = s').
Proof.
  intros (s & Hwr & Hloop & Hmods & Hcb)%main_inr
         (s' & Hwr' & Hloop' & Hmods' & Hcb')%main_inr.
  destruct (assembly_loop_initial _ _ Hloop) as (_ & _ & _ & Hmux & Hkind & Hlen).
  destruct (assembly_loop_initial _ _ Hloop') as (_ & _ & _ & Hmux' & Hkind' & Hlen').
  pose proof Hloop as [Hready _]%assembly_loop_inr.
  pose proof Hloop' as [Hready' _]%assembly_loop_inr.
  simpl in Hready, Hready'.
  set (w1 := loop_world disk args 0 (body_checkpoints args) (initial m0)) in *.
  set (w1' := loop_world disk args 0 (body_checkpoints args) (initial m0')) in *.
  assert (∀ i, i < length (body_checkpoints args) →
               bodies (Conv_Body (model w1)) !! i =
               bodies (Conv_Body (model w1')) !! i) as Hbodies.
  { intros i Hi. destruct (lookup_lt_is_Some_2 _ _ Hi) as [path Hp].
    destruct (Hready _ _ Hp) as (_ & ? & _ & Hs%lookup_lt_Some & _).
    destruct (Hready' _ _ Hp) as (_ & ? & _ & Hs'%lookup_lt_Some & _).
    unfold w1, w1'.
    rewrite (loop_world_bodies_in _ 0 _ i path Hp) by (simpl in *; lia).
    by rewrite (loop_world_bodies_in _ 0 _ i path Hp) by (simpl in *; lia). }
  assert (∀ child, child ∈ (routed_heads disk args).*1 →
                   _modules s !! child = _modules s' !! child) as Hheads.
  { intros child [sd Hsd]%dd_get_elem_of.
    rewrite Hmods, Hmods', !install_lookup by apply routed_heads_NoDup.
    by rewrite Hsd. }
  exists s, s'. split_and!; [done..| |].
  - intros Hk Hk'. rewrite Hk in Hcb. rewrite Hk' in Hcb'.
    rewrite Hcb, Hcb'. done.
  - intros HN HN' Hmuxer Hvariant Hcover.
    assert (Conv_Body (model w1) = Conv_Body (model w1')) as Hsame.
    { apply conv_body_eq; [|congruence..].
      apply list_eq. intros i.
      destruct (decide (i < length (body_checkpoints args))) as [Hi|Hi];
        [by apply Hbodies|].
      rewrite !(lookup_ge_None_2 _ i); [done|lia..]. }
    apply model_eq.
    + rewrite <- Hvariant, <- Hsame in Hcb'.
      destruct (is_ConcatenateConv (Conv_Body m0)); congruence.
    + apply map_eq. intros child.
      destruct (decide (child ∈ (routed_heads disk args).*1)) as [Hin|Hout];
        [by apply Hheads|].
      rewrite Hmods, Hmods', !install_lookup_notin by done.
      destruct (_modules m0 !! child) eqn:E, (_modules m0' !! child) eqn:E';
        try done; destruct Hout; apply Hcover; rewrite ?E, ?E'; eauto.
Qed.

(** ** Further properties of the partitions *)

Lemma body_items_app (c1 c2 : Checkpoint Tensor) :
  body_items (c1 ++ c2) = body_items c1 ++ body_items c2.
Proof. apply filter_app. Qed.

Lemma body_sub_keys_app (c1 c2 : Checkpoint Tensor) :
  body_sub_keys (c1 ++ c2) = body_sub_keys c1 ++ body_sub_keys c2.
Proof. unfold body_sub_keys. by rewrite body_items_app, !fmap_app. Qed.

Lemma body_sub_keys_cons kv (c : Checkpoint Tensor) :
  body_sub_keys (kv :: c) =
  if is_body_key kv.1 then body_sub_key kv.1 :: body_sub_keys c
  else body_sub_keys c.
Proof.
  unfold body_sub_keys, body_items. rewrite filter_cons.
  destruct (is_body_key kv.1) eqn:Hb.
  - by rewrite decide_True.
  - by rewrite decide_False.
Qed.

Lemma body_items_length (c : Checkpoint Tensor) :
  length (body_sub_keys c) = length (body_items c).
Proof. unfold body_sub_keys. by rewrite !length_fmap. Qed.

Lemma elem_of_body_sub_keys (c : Checkpoint Tensor) sk :
  sk ∈ body_sub_keys c ↔
  ∃ key v, (key, v) ∈ c ∧ is_body_key key = true ∧ body_sub_key key = sk.
Proof.
  unfold body_sub_keys, body_items. rewrite list_elem_of_fmap. split.
  - intros (key & -> & ([key' v] & -> & [Hb Hin]%list_elem_of_filter)%list_elem_of_fmap).
    by exists key', v.
  - intros (key & v & Hin & Hb & <-). exists key. split; [done|].
    apply list_elem_of_fmap. exists (key, v). split; [done|].
    by apply list_elem_of_filter.
Qed.

Lemma body_state_dict_dom_sub_keys (c : Checkpoint Tensor) :
  dom (body_state_dict c) = list_to_set (body_sub_keys c).
Proof.
  apply set_eq. intros sk.
  by rewrite body_state_dict_dom, elem_of_list_to_set, elem_of_body_sub_keys.
Qed.

Lemma size_list_to_set_le (l : list string) :
  (size (list_to_set l : gset string) ≤ length l)%nat.
Proof.
  induction l as [|x l IH]; [done|].
  rewrite list_to_set_cons, size_union_alt, size_singleton. simpl.
  assert (size (list_to_set l ∖ {[x]} : gset string) ≤
          size (list_to_set l : gset string))%nat
    by (apply subseteq_size; set_solver).
  lia.
Qed.

Lemma size_list_to_set_NoDup (l : list string) :
  size (list_to_set l : gset string) = length l ↔ NoDup l.
Proof.
  split; [|apply size_list_to_set].
  induction l as [|x l IH]; [constructor|].
  rewrite list_to_set_cons. simpl.
  intros Hsize. pose proof (size_list_to_set_le l) as Hle.
  destruct (decide (x ∈ l)) as [Hin|Hout].
  - assert ({[x]} ∪ list_to_set l = (list_to_set l : gset string)) as Heq
      by set_solver.
    rewrite Heq in Hsize. lia.
  - constructor; [done|]. apply IH.
    rewrite size_union, size_singleton in Hsize by set_solver. lia.
Qed.

Lemma body_state_dict_size (c : Checkpoint Tensor) :
  size (body_state_dict c) = size (list_to_set (body_sub_keys c) : gset string).
Proof. by rewrite <- body_state_dict_dom_sub_keys, size_dom. Qed.

Lemma conventional_keys_sub_keys_NoDup (c : Checkpoint Tensor) :
  NoDup (keys c) →
  (∀ key, key ∈ keys c → is_body_key key = true →
          ∃ rest, key = ("Conv_Body." ++ rest)%string) →
  NoDup (body_sub_keys c).
Proof.
  unfold keys. induction c as [|[key v] c IH]; intros Hnd Hconv; [constructor|].
  rewrite fmap_cons in Hnd. apply NoDup_cons in Hnd as [Hout Hnd].
  assert (NoDup (body_sub_keys c)) as Hc.
  { apply IH; [done|]. intros k Hk. apply Hconv. by right. }
  rewrite body_sub_keys_cons. simpl.
  destruct (is_body_key key) eqn:Hb; [|done].
  constructor; [|done].
  intros (key' & v' & Hin & Hb' & Hs)%elem_of_body_sub_keys.
  destruct (Hconv key) as [rest ->]; [left|done|].
  destruct (Hconv key') as [rest' ->]; [right; apply list_elem_of_fmap; by exists (key', v')|done|].
  destruct (body_key_sub_key rest) as [_ Hr], (body_key_sub_key rest') as [_ Hr'].
  rewrite Hr, Hr' in Hs. subst rest'.
  apply Hout, list_elem_of_fmap. by eexists (_, v').
Qed.

(** X2.  The dict comprehension of lines 62-65 raises nothing and keeps at
    most one entry per body key.  It keeps exactly one per body key if and
    only if no two body keys have the same sub-key, and then every body
    item is in the partition with its own tensor; otherwise an earlier item
    is overwritten without notice.  When the keys are pairwise distinct and
    every body key reads ['Conv_Body.' ++ rest], nothing is overwritten. *)
Theorem body_partition_lossless (c : Checkpoint Tensor) :
  (size (body_state_dict c) ≤ length (body_items c))%nat ∧
  (size (body_state_dict c) = length (body_items c) ↔ NoDup (body_sub_keys c)) ∧
  (NoDup (body_sub_keys c) →
   ∀ key v, (key, v) ∈ c → is_body_key key = true →
            body_state_dict c !! body_sub_key key = Some v) ∧
  (NoDup (keys c) →
   (∀ key, key ∈ keys c → is_body_key key = true →
           ∃ rest, key = ("Conv_Body." ++ rest)%string) →
   NoDup (body_sub_keys c)).
Proof.
  split_and!.
  - rewrite body_state_dict_size, <- body_items_length. apply size_list_to_set_le.
  - rewrite body_state_dict_size, <- body_items_length. apply size_list_to_set_NoDup.
  - intros Hnd key v Hin Hb.
    apply list_elem_of_split in Hin as (pre & post & ->).
    apply body_state_dict_last; [done|]. intros [key' v'] Hin' Hb' Heq.
    rewrite body_sub_keys_app, body_sub_keys_cons in Hnd. simpl in Hnd, Hb', Heq.
    rewrite Hb in Hnd. apply NoDup_app in Hnd as (_ & _ & Hnd).
    apply NoDup_cons in Hnd as [Hout _]. apply Hout.
    apply elem_of_body_sub_keys. by exists key', v'.
  - apply conventional_keys_sub_keys_NoDup.
Qed.

(** ** When the head partition builds *)

Lemma children_loop_dotted (items : Checkpoint Tensor) (d d' : ChildDicts Tensor) :
  children_loop d items = inr d' →
  ∀ key, key ∈ keys items → is_body_key key = false →
         PyStr.occurs dot key = true.
Proof.
  unfold keys. revert d. induction items as [|[key v] r IH]; intros d; simpl.
  - intros _ key []%elem_of_nil.
  - destruct (children_step d (key, v)) as [e|d1] eqn:Hstep; [done|].
    intros Hloop key' [->|Hin]%elem_of_cons Hb; [|by eapply IH].
    apply children_step_inr in Hstep as [[? _]|(_ & ch & k & Hs & _)];
      [congruence|].
    apply split1_pair in Hs. destruct (PyStr.occurs dot key) eqn:Ho; [done|].
    apply cut_None in Ho. congruence.
Qed.

Lemma children_loop_all_body (items : Checkpoint Tensor) (d : ChildDicts Tensor) :
  (∀ key, key ∈ keys items → is_body_key key = true) →
  children_loop d items = inr d.
Proof.
  unfold keys. induction items as [|[key v] r IH]; intros Hall; [done|].
  simpl. unfold children_step. simpl.
  rewrite (Hall key) by left. apply IH. intros k Hk. apply Hall. by right.
Qed.

(** X3.  For a checkpoint that is a dict, the head partition of lines
    69-75 is built if and only if every key that does not start with
    ['Conv_Body'] contains a ['.']; the only other outcome is the unpacking
    error of line 73, on a key without ['.'].  The partition that is built
    is empty exactly when every key is a body key. *)
Theorem head_partition_builds_iff_dotted (c : Checkpoint Tensor) :
  NoDup (keys c) →
  ((∃ d, children_state_dicts c = inr d) ↔
   ∀ key, key ∈ keys c → is_body_key key = false →
          PyStr.occurs dot key = true) ∧
  (∀ e, children_state_dicts c = inl e →
        ∃ key, e = UnpackValueError key ∧ key ∈ keys c ∧
               is_body_key key = false ∧ PyStr.occurs dot key = false) ∧
  (children_state_dicts c = inr [] ↔
   ∀ key, key ∈ keys c → is_body_key key = true).
Proof.
  intros Hnd.
  assert (∀ e, children_state_dicts c = inl e →
               ∃ key, e = UnpackValueError key ∧ key ∈ keys c ∧
                      is_body_key key = false ∧ PyStr.occurs dot key = false)
    as Herr.
  { intros e He. pose proof He as (key & Hin & Hb & [[-> Ho]| ->])%children_error_shape.
    - by exists key.
    - destruct (unique_keys_no_collision c Hnd).
      by eapply duplicate_error_collides. }
  split_and!; [|done|].
  - split.
    + intros [d Hd]. by eapply children_loop_dotted.
    + intros Hdot. destruct (children_state_dicts c) as [e|d] eqn:Hres; [|by eexists].
      destruct (Herr e eq_refl) as (key & _ & Hin & Hb & Ho).
      rewrite (Hdot key Hin Hb) in Ho. done.
  - split.
    + intros Hd key Hin. destruct (is_body_key key) eqn:Hb; [done|].
      pose proof (children_loop_dotted _ _ _ Hd key Hin Hb) as Ho.
      apply list_elem_of_fmap in Hin as ([k v] & -> & Hin). simpl in *.
      destruct (PyStr.cut dot k) as [[a b]|] eqn:Hcut;
        [|apply cut_None in Hcut; congruence].
      assert (a ∈ ([] : ChildDicts Tensor).*1) as []%elem_of_nil.
      apply (children_loop_children _ _ _ Hd). right.
      exists k, v, b. split_and!; [done..|]. by apply split1_pair.
    + apply children_loop_all_body.
Qed.

(** ** When a run returns, and what stops it *)


(** X4.  A head-weights checkpoint that holds body keys only is accepted:
    when every checkpoint loads and fits its slot the loop returns, no head
    child is loaded and the head children stay as constructed. *)
Theorem pure_backbone_head_source (m0 : Model Tensor) path c :
  (0 ≤ head_weights_index args)%Z →
  body_checkpoints args !! Z.to_nat (head_weights_index args) = Some path →
  checkpoint_at disk path = Some c →
  (∀ key, key ∈ keys c → is_body_key key = true) →
  (∀ k p, body_checkpoints args !! k = Some p →
     ∃ checkpoint slot,
       checkpoint_at disk p = Some checkpoint ∧
       bodies (Conv_Body m0) !! k = Some slot ∧
       dom (body_state_dict checkpoint) = dom slot) →
  ∃ w,
    assembly_loop disk args 0 (body_checkpoints args) (initial m0) = (w, inr ()) ∧
    _modules (model w) = _modules m0 ∧
    ∀ child, EvLoadChild child ∉ trace w.
Proof.
  intros Hidx Hp Hc Hbody Hbodies.
  assert (children_state_dicts c = inr []) as Hd by (by apply children_loop_all_body).
  assert (head_partition disk path = []) as Hhp by (by apply (head_partition_eq _ c)).
  assert (assembly_loop disk args 0 (body_checkpoints args) (initial m0) =
          (loop_world disk args 0 (body_checkpoints args) (initial m0), inr ()))
    as Hloop.
  { apply assembly_loop_inr. split; [|done]. intros k p Hk. simpl.
    destruct (Hbodies _ _ Hk) as (c' & slot & Hc' & Hs & Hdom).
    exists c', slot. split_and!; [done..|]. intros Hi.
    assert (k = Z.to_nat (head_weights_index args)) as -> by lia.
    assert (p = path) as -> by congruence.
    assert (c' = c) as -> by congruence.
    exists []. by split. }
  destruct (assembly_loop_initial _ _ Hloop) as (_ & Htr & _).
  eexists. split_and!; [done| |].
  - rewrite (loop_world_modules_at _ 0 _ _ path Hp) by (simpl; lia).
    by rewrite Hhp.
  - intros child Hin. rewrite Htr in Hin.
    apply (elem_of_populations _ (inr child)) in Hin; [|done].
    apply populations_loop_child in Hin as (k & p & Hk & Hi & Hin).
    assert (k = Z.to_nat (head_weights_index args)) as -> by (simpl in Hi; lia).
    assert (p = path) as -> by congruence.
    rewrite Hhp in Hin. by apply elem_of_nil in Hin.
Qed.

Lemma main_raises_in_iteration (m0 : Model Tensor) n p w1 e :
  body_checkpoints args !! n = Some p →
  (∀ k path, (k < n)%nat → body_checkpoints args !! k = Some path →
             step_ready disk args m0 k path) →
  loop_body disk args n p
    (loop_world disk args 0 (take n (body_checkpoints args)) (initial m0)) =
    (w1, inl e) →
  main disk init_conv_select_index_ args (initial m0) = (w1, inl e).
Proof.
  intros Hp Hready Hstep.
  rewrite main_run, <- (take_drop_middle _ _ _ Hp), assembly_loop_app.
  assert (length (take n (body_checkpoints args)) = n) as Htake.
  { rewrite length_take. apply lookup_lt_Some in Hp. lia. }
  assert (assembly_loop disk args 0 (take n (body_checkpoints args)) (initial m0) =
          (loop_world disk args 0 (take n (body_checkpoints args)) (initial m0),
           inr ())) as ->.
  { apply assembly_loop_inr. split; [|done]. intros k path Hk. simpl.
    pose proof (lookup_lt_Some _ _ _ Hk) as Hlk.
    rewrite lookup_take_lt in Hk by lia. apply Hready; [lia|done]. }
  rewrite assembly_loop_cons.
  change (0 + length (take n (body_checkpoints args)))
    with (length (take n (body_checkpoints args))).
  by rewrite Htake, Hstep.
Qed.

Lemma loop_world_take_model (m0 : Model Tensor) n :
  (n ≤ length (body_checkpoints args))%nat →
  bodies (Conv_Body (model (loop_world disk args 0 (take n (body_checkpoints args))
                              (initial m0)))) !! n =
    bodies (Conv_Body m0) !! n ∧
  (Z.of_nat n = head_weights_index args →
   _modules (model (loop_world disk args 0 (take n (body_checkpoints args))
                      (initial m0))) = _modules m0).
Proof.
  intros Hn.
  assert (length (take n (body_checkpoints args)) = n) as Htake
    by (rewrite length_take; lia).
  split.
  - rewrite loop_world_bodies_out by (rewrite Htake; lia). done.
  - intros Hi. rewrite loop_world_modules_none; [done|].
    intros k Hk. rewrite Htake in Hk. simpl. lia.
Qed.

(** X5.  The first iteration that is not ready decides the error of the
    run.  Let the iterations before [n] be ready and [p] be the path at
    [n].  A path that [torch.load] cannot read gives the load error; a
    loaded object without ['model'] gives the key error of line 61; a body
    partition whose names are not those of slot [n] gives the mismatch of
    line 66; at the head-weights index an error of the head partition is the
    error of the run, and a child whose parameter names differ from the
    partition's gives the mismatch of line 78.  In every case nothing is
    written. *)
Theorem first_failure_decides (m0 : Model Tensor) n p :
  body_checkpoints args !! n = Some p →
  (∀ k path, (k < n)%nat → body_checkpoints args !! k = Some path →
             step_ready disk args m0 k path) →
  let r := main disk init_conv_select_index_ args (initial m0) in
  (disk !! p = None → r.2 = inl (LoadError p) ∧ written r.1 = ∅) ∧
  (∀ obj, disk !! p = Some obj → obj !! "model" = None →
          r.2 = inl (ModelKeyError p) ∧ written r.1 = ∅) ∧
  (∀ c slot,
     checkpoint_at disk p = Some c → bodies (Conv_Body m0) !! n = Some slot →
     dom (body_state_dict c) ≠ dom slot →
     r.2 = inl (BodyMismatchError n) ∧ written r.1 = ∅) ∧
  (∀ c slot e,
     checkpoint_at disk p = Some c → bodies (Conv_Body m0) !! n = Some slot →
     dom (body_state_dict c) = dom slot →
     Z.of_nat n = head_weights_index args →
     children_state_dicts c = inl e →
     r.2 = inl e ∧ written r.1 = ∅) ∧
  (∀ c slot d1 child sd d2 module,
     checkpoint_at disk p = Some c → bodies (Conv_Body m0) !! n = Some slot →
     dom (body_state_dict c) = dom slot →
     Z.of_nat n = head_weights_index args →
     children_state_dicts c = inr (d1 ++ (child, sd) :: d2) →
     Forall (child_ready (_modules m0)) d1 →
     _modules m0 !! child = Some module → dom sd ≠ dom module →
     r.2 = inl (ChildMismatchError child) ∧ written r.1 = ∅).
Proof.
  intros Hp Hready. simpl.
  assert (∀ w1 e,
            loop_body disk args n p
              (loop_world disk args 0 (take n (body_checkpoints args)) (initial m0)) =
              (w1, inl e) →
            (main disk init_conv_select_index_ args (initial m0)).2 = inl e ∧
            written (main disk init_conv_select_index_ args (initial m0)).1 = ∅)
    as Hfrom.
  { intros w1 e Hstep.
    pose proof (main_raises_in_iteration m0 n p w1 e Hp Hready Hstep) as Hrun.
    assert ((main disk init_conv_select_index_ args (initial m0)).2 = inl e)
      as He by (by rewrite Hrun).
    split; [done|]. by destruct (main_raises_nothing_written _ _ He). }
  pose proof (lookup_lt_Some _ _ _ Hp) as Hn.
  destruct (loop_world_take_model m0 n) as [Hslot Hmods]; [lia|].
  set (w0 := loop_world disk args 0 (take n (body_checkpoints args)) (initial m0))
    in *.
  split_and!.
  - intros Hnone. eapply Hfrom. unfold loop_body.
    rewrite bind_run, torch_load_model_run, Hnone. done.
  - intros obj Hobj Hmodel. eapply Hfrom. unfold loop_body.
    rewrite bind_run, torch_load_model_run, Hobj, Hmodel. done.
  - intros c slot Hc Hs Hdom. eapply Hfrom. unfold loop_body.
    rewrite bind_run, checkpoint_at_load, Hc, bind_run, load_body_run. simpl.
    rewrite Hslot, Hs, decide_False by done. done.
  - intros c slot e Hc Hs Hdom Hi He. eapply Hfrom.
    rewrite (loop_body_loaded n p w0 c slot Hc); [|by rewrite Hslot|done].
    simpl. by rewrite decide_True, He.
  - intros c slot d1 child sd d2 module Hc Hs Hdom Hi Hd Hd1 Hm Hne.
    pose proof (children_loop_NoDup _ _ _ Hd (NoDup_nil_2 (A:=string))) as Hnd.
    rewrite fmap_app, fmap_cons in Hnd. simpl in Hnd.
    apply NoDup_app in Hnd as (Hnd1 & Hnotin & _).
    assert (child ∉ d1.*1) as Hfresh by (intros Hin; apply (Hnotin _ Hin); left).
    eapply Hfrom.
    rewrite (loop_body_loaded n p w0 c slot Hc); [|by rewrite Hslot|done].
    simpl. rewrite decide_True, Hd, load_children_app by done.
    set (w2 := with_body n (body_state_dict c) (logged (EvTorchLoad p) w0)).
    assert (load_children d1 w2 = (with_children d1 w2, inr ())) as ->.
    { apply load_children_inr; [done|]. split; [|done]. simpl.
      by rewrite (Hmods Hi). }
    rewrite load_children_cons, load_child_run. simpl.
    rewrite install_lookup_notin, (Hmods Hi), Hm, decide_False by done. done.
Qed.

(** ** The order of reads, and the reach of the head loads *)

Lemma torch_loads_app tr1 tr2 :
  torch_loads (tr1 ++ tr2) = torch_loads tr1 ++ torch_loads tr2.
Proof. apply omap_app. Qed.

Lemma torch_loads_children (cs : list string) :
  torch_loads (EvLoadChild <$> cs) = [].
Proof. induction cs as [|c cs IH]; [done|]. by rewrite fmap_cons. Qed.

Lemma load_children_loads (d : ChildDicts Tensor) w :
  torch_loads (trace (load_children d w).1) = torch_loads (trace w).
Proof.
  revert w. induction d as [|[child sd] d IH]; intros w; [done|].
  rewrite load_children_cons, load_child_run.
  destruct (_modules (model w) !! child) as [module|]; [|done].
  case_decide.
  - rewrite IH. simpl. rewrite torch_loads_app. simpl. by rewrite app_nil_r.
  - simpl. rewrite torch_loads_app. simpl. by rewrite app_nil_r.
Qed.

Lemma loop_body_loads i path w :
  torch_loads (trace (loop_body disk args i path w).1) =
  torch_loads (trace w) ++ [path].
Proof.
  unfold loop_body. rewrite bind_run, checkpoint_at_load.
  destruct (checkpoint_at disk path) as [c|];
    [|simpl; by rewrite torch_loads_app].
  rewrite bind_run, load_body_run. simpl.
  destruct (bodies _ !! i) as [slot|]; [|simpl; by rewrite torch_loads_app].
  case_decide; simpl.
  - case_decide; [|simpl; rewrite !torch_loads_app; simpl; by rewrite app_nil_r].
    destruct (children_state_dicts c);
      [simpl; rewrite !torch_loads_app; simpl; by rewrite app_nil_r|].
    rewrite load_children_loads. simpl.
    rewrite !torch_loads_app. simpl. by rewrite app_nil_r.
  - rewrite !torch_loads_app. simpl. by rewrite app_nil_r.
Qed.

Lemma assembly_loop_loads paths i w :
  ∃ n, (n ≤ length paths)%nat ∧
       torch_loads (trace (assembly_loop disk args i paths w).1) =
         torch_loads (trace w) ++ take n paths ∧
       ((assembly_loop disk args i paths w).2 = inr () → n = length paths).
Proof.
  revert i w. induction paths as [|p r IH]; intros i w.
  - exists 0. simpl. by rewrite app_nil_r.
  - rewrite assembly_loop_cons. pose proof (loop_body_loads i p w) as Hp.
    destruct (loop_body disk args i p w) as [w1 [e|[]]]; simpl in Hp.
    + exists 1. simpl. split_and!; [lia|by rewrite take_0|done].
    + destruct (IH (S i) w1) as (n & Hn & Hloads & Hall).
      exists (S n). simpl. split_and!; [lia| |intros Hr; by rewrite Hall].
      by rewrite Hloads, Hp, <- (assoc_L (++)).
Qed.

(** X6.  The checkpoints are read in the order of the command line, each
    listed path once, and reading stops with the iteration that raises: the
    paths passed to [torch.load] form an initial segment of
    [body_checkpoints], and a run that returns has read them all. *)
Theorem checkpoints_read_in_order (m0 : Model Tensor) :
  let r := main disk init_conv_select_index_ args (initial m0) in
  ∃ n, (n ≤ length (body_checkpoints args))%nat ∧
       torch_loads (trace r.1) = take n (body_checkpoints args) ∧
       (r.2 = inr () → torch_loads (trace r.1) = body_checkpoints args).
Proof.
  simpl. rewrite main_run.
  destruct (assembly_loop_loads (body_checkpoints args) 0 (initial m0))
    as (n & Hn & Hloads & Hall).
  destruct (assembly_loop _ _ _ _ _) as [w1 [e|[]]]; simpl in *.
  - exists n. by split_and!.
  - rewrite (Hall eq_refl), firstn_all in Hloads.
    exists (length (body_checkpoints args)). rewrite firstn_all.
    destruct (is_ConcatenateConv _).
    + destruct (init_conv_select_index_ _ _); simpl;
        rewrite !torch_loads_app, Hloads; simpl; rewrite ?app_nil_r; by split_and!.
    + simpl. rewrite torch_loads_app, Hloads. simpl. rewrite app_nil_r. by split_and!.
Qed.

Lemma load_children_child_events (d : ChildDicts Tensor) w child :
  EvLoadChild child ∈ trace (load_children d w).1 →
  EvLoadChild child ∈ trace w ∨ child ∈ d.*1.
Proof.
  revert w. induction d as [|[c sd] d IH]; intros w; [by left|].
  rewrite load_children_cons, load_child_run, fmap_cons.
  destruct (_modules (model w) !! c) as [module|]; [|by left].
  case_decide.
  - intros [Hin|Hin]%IH; [|right; by right]. simpl in Hin.
    apply elem_of_app in Hin as [?|Hin]; [by left|]. right.
    apply list_elem_of_singleton in Hin. injection Hin as ->. left.
  - simpl. intros [?|Hin]%elem_of_app; [by left|]. right.
    apply list_elem_of_singleton in Hin. injection Hin as ->. left.
Qed.

Lemma loop_body_child_events i path w child :
  EvLoadChild child ∈ trace (loop_body disk args i path w).1 →
  EvLoadChild child ∈ trace w ∨ is_body_key child = false.
Proof.
  assert (∀ evs, Forall (λ ev, is_save ev = false ∧ population ev ≠ Some (inr child)) evs →
                 EvLoadChild child ∈ trace w ++ evs → EvLoadChild child ∈ trace w)
    as Hskip.
  { intros evs Hevs [?|Hin]%elem_of_app; [done|].
    rewrite Forall_forall in Hevs. by destruct (Hevs _ Hin). }
  unfold loop_body. rewrite bind_run, checkpoint_at_load.
  destruct (checkpoint_at disk path) as [c|]; simpl;
    [|intros Hev; left; apply (Hskip [EvTorchLoad path]); [by repeat constructor|done]].
  rewrite bind_run, load_body_run. simpl.
  destruct (bodies _ !! i) as [slot|]; simpl;
    [|intros Hev; left; apply (Hskip [EvTorchLoad path]); [by repeat constructor|done]].
  assert (∀ ev', EvLoadChild child ∈ (trace w ++ [EvTorchLoad path]) ++ [EvLoadBody ev'] →
                 EvLoadChild child ∈ trace w) as Hskip2.
  { intros ev' Hev. apply (Hskip [EvTorchLoad path; EvLoadBody ev']);
      [by repeat constructor|by rewrite <- (assoc_L (++)) in Hev]. }
  case_decide; simpl; [|intros Hev; left; by eapply Hskip2].
  case_decide; simpl; [|intros Hev; left; by eapply Hskip2].
  destruct (children_state_dicts c) as [e|d] eqn:Hd; simpl;
    [intros Hev; left; by eapply Hskip2|].
  intros [Hin|Hin]%load_children_child_events.
  - left. simpl in Hin. by eapply Hskip2.
  - right. by eapply head_child_not_body.
Qed.

Lemma assembly_loop_child_events paths i w child :
  EvLoadChild child ∈ trace (assembly_loop disk args i paths w).1 →
  EvLoadChild child ∈ trace w ∨ is_body_key child = false.
Proof.
  revert i w. induction paths as [|p r IH]; intros i w; [by left|].
  rewrite assembly_loop_cons. pose proof (loop_body_child_events i p w child) as Hp.
  destruct (loop_body disk args i p w) as [w1 [e|[]]]; [done|].
  intros [Hin|?]%IH; [by apply Hp|by right].
Qed.

(** X7.  Whatever the run does, line 78 never loads into the backbone: the
    name of every head child on which [load_state_dict] is called does not
    start with ['Conv_Body']. *)
Theorem head_loads_never_reach_backbone (m0 : Model Tensor) child :
  EvLoadChild child ∈
    trace (main disk init_conv_select_index_ args (initial m0)).1 →
  is_body_key child = false ∧ child ≠ Conv_Body_name.
Proof.
  intros Hin.
  assert (is_body_key child = false) as Hb; [|split; [done|by intros ->]].
  revert Hin. rewrite main_run.
  pose proof (assembly_loop_child_events (body_checkpoints args) 0 (initial m0) child)
    as Hloop.
  assert (EvLoadChild child ∈
            trace (assembly_loop disk args 0 (body_checkpoints args) (initial m0)).1 →
          is_body_key child = false) as Hloop'.
  { intros [[]%elem_of_nil|?]%Hloop. done. }
  destruct (assembly_loop _ _ _ _ _) as [w1 [e|[]]]; simpl in *; [done|].
  destruct (is_ConcatenateConv _).
  - destruct (init_conv_select_index_ _ _); simpl.
    + intros [[?|Hin]%elem_of_app|Hin]%elem_of_app; [by apply Hloop'|..];
        by apply list_elem_of_singleton in Hin.
    + intros [?|Hin]%elem_of_app; [by apply Hloop'|].
      by apply list_elem_of_singleton in Hin.
  - simpl. intros [?|Hin]%elem_of_app; [by apply Hloop'|].
    by apply list_elem_of_singleton in Hin.
Qed.

End Properties.

(** ** What a run reads of its checkpoints *)

Section OtherDisk.

Context {Tensor : Type}.
Context (init_conv_select_index_ : Z → ConvBody Tensor → option (ConvBody Tensor)).
Context (args : Args).

Lemma body_state_dict_items (c : Checkpoint Tensor) :
  body_state_dict (body_items c) = body_state_dict c.
Proof.
  induction c as [|kv c IH] using rev_ind; [done|].
  rewrite body_items_app, body_state_dict_snoc.
  unfold body_items at 2. rewrite filter_cons, filter_nil.
  unfold body_step. case_decide as Hb.
  - rewrite body_state_dict_snoc, IH. unfold body_step. by rewrite Hb.
  - rewrite app_nil_r, IH. by destruct (is_body_key kv.1).
Qed.

Lemma loop_body_other_disk
    (disk disk' : gmap string (gmap string (Checkpoint Tensor))) i path w :
  (disk !! path = disk' !! path ∨
   ∃ c c', checkpoint_at disk path = Some c ∧ checkpoint_at disk' path = Some c' ∧
     body_items c = body_items c' ∧
     (Z.of_nat i = head_weights_index args → c = c')) →
  loop_body disk args i path w = loop_body disk' args i path w.
Proof.
  intros [Heq|(c & c' & Hc & Hc' & Hitems & Hhead)]; unfold loop_body; rewrite !bind_run.
  - by rewrite !torch_load_model_run, Heq.
  - rewrite !checkpoint_at_load, Hc, Hc'. rewrite !bind_run.
    rewrite <- (body_state_dict_items c), Hitems, body_state_dict_items.
    destruct (load_body i (body_state_dict c') _) as [w2 [e|[]]]; [done|].
    case_decide as Hi; [|done]. by rewrite (Hhead Hi).
Qed.

Lemma assembly_loop_other_disk
    (disk disk' : gmap string (gmap string (Checkpoint Tensor))) paths i w :
  (∀ k path, paths !! k = Some path →
     disk !! path = disk' !! path ∨
     ∃ c c', checkpoint_at disk path = Some c ∧ checkpoint_at disk' path = Some c' ∧
       body_items c = body_items c' ∧
       (Z.of_nat (i + k) = head_weights_index args → c = c')) →
  assembly_loop disk args i paths w = assembly_loop disk' args i paths w.
Proof.
  revert i w. induction paths as [|path r IH]; intros i w H; [done|].
  rewrite !assembly_loop_cons.
  rewrite (loop_body_other_disk disk disk').
  - destruct (loop_body disk' args i path w) as [w1 [e|[]]]; [done|].
    apply IH. intros k p Hk. specialize (H (S k) p Hk).
    by replace (S i + k)%nat with (i + S k)%nat by lia.
  - specialize (H 0%nat path eq_refl). by rewrite Nat.add_0_r in H.
Qed.

(** X8. A checkpoint that is not at the head-weights index is read for
    its body keys only: replace it by any checkpoint with the same
    body-key items (other keys changed, added or removed, also keys
    without a dot) and the run is the same in outcome, model, log and
    file written.  The checkpoint at the head-weights index is read in
    full. *)
Theorem run_reads_bodies_and_one_head
    (disk disk' : gmap string (gmap string (Checkpoint Tensor))) w :
  (∀ k path, body_checkpoints args !! k = Some path →
     disk !! path = disk' !! path ∨
     ∃ c c', checkpoint_at disk path = Some c ∧ checkpoint_at disk' path = Some c' ∧
       body_items c = body_items c' ∧
       (Z.of_nat k = head_weights_index args → c = c')) →
  main disk init_conv_select_index_ args w =
  main disk' init_conv_select_index_ args w.
Proof.
  intros H. rewrite !main_run.
  by rewrite (assembly_loop_other_disk disk disk').
Qed.

End OtherDisk.

(** ** The inference script: the output directory *)

Section InferenceScriptPaths.

Lemma append_nil_l (s : string) : (EmptyString ++ s)%string = s.
Proof. done. Qed.

Lemma append_cons_l c (a s : string) : (String c a ++ s)%string = String c (a ++ s).
Proof. done. Qed.

Lemma occurs_mid c (a f : string) : PyStr.occurs c (a ++ String c f)%string = true.
Proof.
  induction a as [|d a IH]; rewrite ?append_nil_l, ?append_cons_l; simpl;
    [by rewrite Ascii.eqb_refl|].
  by destruct (Ascii.eqb d c).
Qed.

Lemma head_to_last_sep_bare f :
  PyStr.occurs TestNet.PyPath.sep f = false →
  TestNet.PyPath.head_to_last_sep f = EmptyString.
Proof.
  destruct f as [|c r]; [done|]. intros H.
  cbn [TestNet.PyPath.head_to_last_sep]. by rewrite H.
Qed.

Lemma head_to_last_sep_file (a f : string) :
  PyStr.occurs TestNet.PyPath.sep f = false →
  TestNet.PyPath.head_to_last_sep (a ++ String TestNet.PyPath.sep f)%string =
  (a ++ String TestNet.PyPath.sep EmptyString)%string.
Proof.
  intros Hf. induction a as [|c a IH].
  - rewrite ?append_nil_l, ?append_cons_l; cbn [TestNet.PyPath.head_to_last_sep].
    rewrite (occurs_mid _ EmptyString f : PyStr.occurs _ (String _ f) = true).
    by rewrite head_to_last_sep_bare.
  - rewrite ?append_nil_l, ?append_cons_l; cbn [TestNet.PyPath.head_to_last_sep].
    rewrite (occurs_mid _ (String c a) f
             : PyStr.occurs _ (String c (a ++ String _ f)) = true).
    by rewrite IH.
Qed.

Lemma only_sep_app (a s : string) :
  a ≠ EmptyString → TestNet.PyPath.endswith_sep a = false →
  TestNet.PyPath.only_sep (a ++ s)%string = false.
Proof.
  induction a as [|c a IH]; [done|]. intros _ He.
  destruct a as [|d a].
  - simpl in *. by rewrite He.
  - rewrite ?append_nil_l, ?append_cons_l; cbn [TestNet.PyPath.only_sep].
    destruct (Ascii.eqb c TestNet.PyPath.sep); [|done].
    by apply IH.
Qed.

Lemma rstrip_sep_app (a : string) :
  TestNet.PyPath.endswith_sep a = false →
  TestNet.PyPath.rstrip_sep (a ++ String TestNet.PyPath.sep EmptyString)%string = a.
Proof.
  induction a as [|c a IH]; [done|]. intros He.
  destruct a as [|d a].
  - simpl in *. by rewrite He.
  - rewrite append_cons_l. cbn [TestNet.PyPath.rstrip_sep].
    rewrite IH; [done|]. exact He.
Qed.

Lemma endswith_sep_app (a x : string) :
  x ≠ EmptyString →
  TestNet.PyPath.endswith_sep (a ++ x)%string = TestNet.PyPath.endswith_sep x.
Proof.
  intros Hx. induction a as [|c a IH]; [done|].
  rewrite ?append_nil_l, ?append_cons_l; cbn [TestNet.PyPath.endswith_sep].
  destruct (a ++ x)%string eqn:E; [|done].
  by destruct a, x.
Qed.

Lemma endswith_sep_bare (x : string) :
  PyStr.occurs TestNet.PyPath.sep x = false → TestNet.PyPath.endswith_sep x = false.
Proof.
  induction x as [|c x IH]; [done|]. simpl.
  destruct (Ascii.eqb c TestNet.PyPath.sep) eqn:Ec; [done|]. intros Hx.
  destruct x; [done|]. by apply IH.
Qed.

Lemma path_two_levels (a x f : string) :
  (a ++ "/" ++ x ++ "/" ++ f)%string =
  ((a ++ String TestNet.PyPath.sep x) ++ String TestNet.PyPath.sep f)%string.
Proof.
  induction a as [|c a IH]; [done|]. rewrite !append_cons_l. by f_equal.
Qed.

Lemma dirname_file (a f : string) :
  a ≠ EmptyString → TestNet.PyPath.endswith_sep a = false →
  PyStr.occurs TestNet.PyPath.sep f = false →
  TestNet.PyPath.dirname (a ++ String TestNet.PyPath.sep f)%string = a.
Proof.
  intros Ha He Hf. unfold TestNet.PyPath.dirname.
  rewrite head_to_last_sep_file by done.
  rewrite only_sep_app by done.
  rewrite rstrip_sep_app by done.
  by destruct a.
Qed.

Lemma dirname_root (f : string) :
  PyStr.occurs TestNet.PyPath.sep f = false →
  TestNet.PyPath.dirname (String TestNet.PyPath.sep f) = "/"%string.
Proof.
  intros Hf. unfold TestNet.PyPath.dirname.
  pose proof (head_to_last_sep_file EmptyString f Hf) as H.
  rewrite !append_nil_l in H. by rewrite H.
Qed.

Lemma dirname_bare (f : string) :
  PyStr.occurs TestNet.PyPath.sep f = false →
  TestNet.PyPath.dirname f = EmptyString.
Proof.
  intros Hf. unfold TestNet.PyPath.dirname. by rewrite head_to_last_sep_bare.
Qed.

Lemma join_test (a : string) :
  TestNet.PyPath.endswith_sep a = false →
  TestNet.PyPath.join a "test" =
  if String.eqb a EmptyString then "test"%string else (a ++ "/test")%string.
Proof.
  intros He. unfold TestNet.PyPath.join. simpl. rewrite He.
  by destruct a.
Qed.

(** X9. When the checks of lines 66-74 pass, exactly one of
    [--load_ckpt] and [--load_detectron] is a non-empty string and it is
    the checkpoint path.  An [--output_dir] that was given is used as it
    is; without one the directory is set automatically, two levels above
    the checkpoint file: [a/x/f] gives [a/test] (also for [a] empty, the
    path [/x/f] giving [/test]), and a path without any [/] gives the
    relative directory [test]. *)
Theorem output_dir_two_levels_up cuda n (args : TestNet.Args) dir auto :
  TestNet.preflight cuda n args = inr (dir, auto) →
  ((Some (TestNet.ckpt_path args) = TestNet.load_ckpt args ∧
    TestNet.truthy (TestNet.load_detectron args) = false) ∨
   (Some (TestNet.ckpt_path args) = TestNet.load_detectron args ∧
    TestNet.truthy (TestNet.load_ckpt args) = false)) ∧
  TestNet.ckpt_path args ≠ EmptyString ∧
  (∀ d, TestNet.output_dir args = Some d → dir = d ∧ auto = false) ∧
  (TestNet.output_dir args = None →
     auto = true ∧
     (∀ a x f,
        TestNet.ckpt_path args = (a ++ "/" ++ x ++ "/" ++ f)%string →
        TestNet.PyPath.endswith_sep a = false →
        x ≠ EmptyString →
        PyStr.occurs TestNet.PyPath.sep x = false →
        PyStr.occurs TestNet.PyPath.sep f = false →
        dir = (a ++ "/test")%string) ∧
     (PyStr.occurs TestNet.PyPath.sep (TestNet.ckpt_path args) = false →
      dir = "test"%string)).
Proof.
  unfold TestNet.preflight. intros H.
  destruct cuda; [|done]. simpl in H.
  destruct (xorb (n =? 1)%nat (TestNet.multi_gpu_testing args)); [|done]. simpl in H.
  destruct (xorb _ _) eqn:Hx in H; [|done]. simpl in H.
  assert (((Some (TestNet.ckpt_path args) = TestNet.load_ckpt args ∧
            TestNet.truthy (TestNet.load_detectron args) = false) ∨
           (Some (TestNet.ckpt_path args) = TestNet.load_detectron args ∧
            TestNet.truthy (TestNet.load_ckpt args) = false)) ∧
          TestNet.ckpt_path args ≠ EmptyString) as [Hwhich Hne].
  { unfold TestNet.ckpt_path, TestNet.truthy in *.
    destruct (TestNet.load_ckpt args) as [[|c s]|], (TestNet.load_detectron args) as [[|c' s']|];
      simpl in *; try done; (split; [first [by left|by right]|done]). }
  split_and!; [done|done|..].
  - intros d Hd. rewrite Hd in H. by simplify_eq.
  - intros Hd. rewrite Hd in H. simplify_eq. split_and!; [done|..].
    + intros a x f Hp Ha Hx0 Hxs Hf. rewrite Hp, path_two_levels.
      rewrite dirname_file; [|by destruct a| |done].
      2:{ rewrite endswith_sep_app by done.
          destruct x as [|c x]; [done|]. by apply (endswith_sep_bare (String c x)). }
      destruct a as [|c a].
      * rewrite append_nil_l, dirname_root by done. done.
      * rewrite dirname_file by done. by rewrite join_test.
    + intros Hp. by rewrite (dirname_bare _ Hp).
Qed.

End InferenceScriptPaths.

(** ** The inference script: the dataset settings *)

Section InferenceScriptDatasets.

Context {Means : Type} (zero_means : Means).

(** X10. A run without [--dataset] never gets past the dataset settings,
    although line 144 provides for it: with no dataset in the
    configuration the assertion of line 145 fails, and with one the test
    of line 147, which looks for substrings in [args.dataset], raises a
    TypeError on [None]. *)
Theorem dataset_flag_is_required (cfg : TestNet.Cfg Means) :
  ∃ e, TestNet.configure_dataset zero_means None cfg = inl e ∧
       (e = TestNet.EmptyDatasetsAssertion ↔ TestNet.TEST_DATASETS cfg = []) ∧
       (e = TestNet.NoneNotIterable ↔ TestNet.TEST_DATASETS cfg ≠ []).
Proof.
  unfold TestNet.configure_dataset. simpl.
  destruct (TestNet.TEST_DATASETS cfg) as [|d ds]; eexists; (split; [done|]);
    split; split; done.
Qed.

Local Ltac dataset_case name :=
  match goal with
  | |- context [String.eqb name ?s] =>
      destruct (String.eqb_spec name s) as [->|?]
  end.

(** X11. With [--dataset name] the settings succeed exactly for the
    eleven names of lines 118-141 and otherwise raise the ValueError on
    that name.  On success the configuration tests on one dataset split,
    a training split exactly for the names with [train] in them; the
    number of classes is 81 for [coco2017], unchanged for
    [keypoints_coco2017] and 2 for every other name; and the pixel means
    are zeroed and the JSON evaluation forced exactly for the names
    outside the COCO family, the other names keeping both. *)
Theorem dataset_settings (name : string) (cfg : TestNet.Cfg Means) :
  ((∃ cfg', TestNet.configure_dataset zero_means (Some name) cfg = inr cfg') ↔
   name ∈ TestNet.known_datasets) ∧
  (∀ e, TestNet.configure_dataset zero_means (Some name) cfg = inl e →
        e = TestNet.UnknownDataset name) ∧
  (∀ cfg', TestNet.configure_dataset zero_means (Some name) cfg = inr cfg' →
     (∃ split, TestNet.TEST_DATASETS cfg' = [split] ∧
               TestNet.contains split "train" = TestNet.contains name "train") ∧
     TestNet.MODEL_NUM_CLASSES cfg' =
       (if String.eqb name "coco2017" then 81%Z
        else if String.eqb name "keypoints_coco2017"
             then TestNet.MODEL_NUM_CLASSES cfg else 2%Z) ∧
     TestNet.is_flow_dataset name = negb (TestNet.contains name "coco") ∧
     (if TestNet.is_flow_dataset name
      then TestNet.PIXEL_MEANS cfg' = zero_means ∧
           TestNet.TEST_FORCE_JSON_DATASET_EVAL cfg' = true
      else TestNet.PIXEL_MEANS cfg' = TestNet.PIXEL_MEANS cfg ∧
           TestNet.TEST_FORCE_JSON_DATASET_EVAL cfg' =
           TestNet.TEST_FORCE_JSON_DATASET_EVAL cfg)).
Proof.
  unfold TestNet.configure_dataset, TestNet.select_dataset.
  do 11 (dataset_case name;
    [split_and!;
       [split; [intros _; apply (bool_decide_unpack _); by vm_compute
               |intros _; eexists; by vm_compute]
       |intros e He; by vm_compute in He
       |intros cfg' He; vm_compute in He; simplify_eq;
        split_and!; [eexists; split; by vm_compute|by vm_compute..]]
    |]).
  split_and!.
  - split; [by intros [cfg' ?]|].
    unfold TestNet.known_datasets. rewrite !elem_of_cons, elem_of_nil.
    intuition congruence.
  - intros e He. by simplify_eq.
  - by intros cfg' He.
Qed.

End InferenceScriptDatasets.

(** ** The scenario, run *)

Section ScenarioRuns.

Import Scenario.

(** The scenario as the specification tells it: slot [i] receives the
    backbone tensor of checkpoint [i], the classification head receives
    checkpoint 1's, and the calls come in the order of the script. *)
Example three_checkpoints_head_from_second :
  let r := main disk3 hook_keep args3 (initial model3) in
  r.2 = inr () ∧
  trace r.1 =
    [EvTorchLoad "a.pth"; EvLoadBody 0;
     EvTorchLoad "b.pth"; EvLoadBody 1; EvLoadChild "ClsHead";
     EvTorchLoad "c.pth"; EvLoadBody 2;
     EvTorchSave "out.pth"] ∧
  written_body_leaf r.1 0 "layer1.weight" = Some 0 ∧
  written_body_leaf r.1 1 "layer1.weight" = Some 1 ∧
  written_body_leaf r.1 2 "layer1.weight" = Some 2 ∧
  written_head_leaf r.1 "ClsHead" "fc.weight" = Some 11.
Proof. by vm_compute. Qed.

(** A model built without the head the checkpoint mentions: the run stops
    at line 78 and nothing is written. *)
Example headless_model_stops :
  let r := main disk3 hook_keep args3 (initial model3_headless) in
  r.2 = inl (UnknownChildError "ClsHead") ∧ written_model r.1 = None.
Proof. by vm_compute. Qed.

(** A negative head-weights index is accepted as well: no head is loaded
    and the classification head is written as constructed. *)
Example negative_head_index_writes :
  let r := main disk3 hook_keep
             (args_for ["a.pth"; "b.pth"; "c.pth"] (-1)) (initial model3) in
  r.2 = inr () ∧
  written_body_leaf r.1 2 "layer1.weight" = Some 2 ∧
  written_head_leaf r.1 "ClsHead" "fc.weight" = Some 200.
Proof. by vm_compute. Qed.

(** C2, counterexample.  The key [Conv_Body_aux.w] has first segment
    [Conv_Body_aux], not [Conv_Body], and yet it is routed to the body
    partition, under sub-key [w]; the head partition does not receive it. *)
Lemma stray_key_routed_to_body :
  top_segment stray_key = "Conv_Body_aux" ∧
  top_segment stray_key ≠ Conv_Body_name ∧
  is_body_key stray_key = true ∧
  body_state_dict [(stray_key, 7)] !! "w" = Some 7 ∧
  children_state_dicts [(stray_key, 7)] = inr [].
Proof. split_and!; [done|by vm_compute|done..]. Qed.


(** C4, counterexample.  The model has a head child [Box_Outs] that the
    head checkpoint does not mention.  The run returns, and the written
    leaf [Box_Outs.w] holds the constructor's 300, a tensor that no
    checkpoint on disk holds. *)
Lemma written_leaf_from_no_checkpoint :
  let r := main disk3 hook_keep args3 (initial (model3_box 300)) in
  r.2 = inr () ∧
  written_head_leaf r.1 "Box_Outs" "w" = Some 300 ∧
  map_Forall (λ _ obj, map_Forall (λ _ c, Forall (λ kv, kv.2 ≠ 300) c) obj) disk3.
Proof.
  split_and!; [by vm_compute..|].
  apply (bool_decide_unpack _). by vm_compute.
Qed.

(** C9, counterexample.  Two runs on the same checkpoints, index and output
    path, from two constructed models of the same architecture that differ
    in the constructor's value of [Box_Outs.w]: both return, and the written
    files differ in that leaf. *)
Lemma same_inputs_different_outputs :
  let r := main disk3 hook_keep args3 (initial (model3_box 300)) in
  let r' := main disk3 hook_keep args3 (initial (model3_box 301)) in
  dom <$> _modules (model3_box 300) = dom <$> _modules (model3_box 301) ∧
  Conv_Body (model3_box 300) = Conv_Body (model3_box 301) ∧
  r.2 = inr () ∧ r'.2 = inr () ∧
  written_head_leaf r.1 "Box_Outs" "w" = Some 300 ∧
  written_head_leaf r'.1 "Box_Outs" "w" = Some 301 ∧
  written r.1 ≠ written r'.1.
Proof.
  split_and!; [by vm_compute..|].
  intros H.
  assert (written_head_leaf
            (main disk3 hook_keep args3 (initial (model3_box 300))).1 "Box_Outs" "w" =
          written_head_leaf
            (main disk3 hook_keep args3 (initial (model3_box 301))).1 "Box_Outs" "w")
    as Heq by (unfold written_head_leaf, written_model; by rewrite H).
  vm_compute in Heq. discriminate.
Qed.

(** The calls of iteration [k] return on the scenario's disk for each of
    the paths a, b, c. *)
Local Ltac ready_on_disk :=
  do 2 eexists; split_and!; [vm_compute; reflexivity..].

(** The same for [step_ready], leaving its clause on the head partition. *)
Local Ltac step_ready_on_disk :=
  unfold step_ready; do 2 eexists; split_and!; [vm_compute; reflexivity..|].


(** The head partition of checkpoint 1 is built, and C2's description of
    both partitions applies to it. *)
Lemma partition_by_prefix_witness :
  let d := [("ClsHead", {["fc.weight" := 11]})] in
  children_state_dicts (ckpt 1) = inr d ∧
  (∀ child ck v,
     dd_leaf d child ck = Some v ↔
     ∃ key, (key, v) ∈ ckpt 1 ∧ is_body_key key = false ∧
            key = (child ++ String dot ck)%string ∧
            PyStr.occurs dot child = false) ∧
  (∀ sk, sk ∈ dom (body_state_dict (ckpt 1)) ↔
         ∃ key v, (key, v) ∈ ckpt 1 ∧ is_body_key key = true ∧ body_sub_key key = sk).
Proof.
  cbv zeta.
  assert (children_state_dicts (ckpt 1) = inr [("ClsHead", {["fc.weight" := 11]})])
    as H by (vm_compute; reflexivity).
  destruct (partition_by_prefix (ckpt 1) _ H)
    as (_ & _ & _ & Hdom & _ & _ & Hleaf).
  by split_and!.
Defined.

(** Checkpoint 1 is a dict whose head keys all have a ['.']: both
    hypotheses of C6 hold for it. *)
Lemma duplicate_key_error_iff_collision_witness :
  (∀ key, key ∈ keys (ckpt 1) → is_body_key key = false →
          PyStr.occurs dot key = true) ∧
  NoDup (keys (ckpt 1)) ∧
  ((∃ key, children_state_dicts (ckpt 1) = inl (DuplicateKeyError key)) ↔
   collides (ckpt 1)) ∧
  ¬ collides (ckpt 1).
Proof.
  assert (∀ key, key ∈ keys (ckpt 1) → is_body_key key = false →
                 PyStr.occurs dot key = true) as Hdot.
  { intros key Hin _. unfold keys, ckpt in Hin. simpl in Hin.
    repeat (apply elem_of_cons in Hin as [->|Hin]; [reflexivity|]).
    by apply elem_of_nil in Hin. }
  assert (NoDup (keys (ckpt 1))) as Hnd
    by (apply (bool_decide_unpack _); vm_compute; exact I).
  destruct (duplicate_key_error_iff_collision (ckpt 1)) as [Hiff Hnever].
  split_and!;
    [exact Hdot|exact Hnd|exact (Hiff Hdot)|exact (proj1 (proj2 (Hnever Hnd)))].
Defined.


(** The hypotheses of C7 hold for the model built without [ClsHead]. *)
Lemma unknown_head_child_fails_witness :
  let r := main disk3 hook_keep args3 (initial model3_headless) in
  (0 ≤ head_weights_index args3)%Z ∧
  body_checkpoints args3 !! Z.to_nat (head_weights_index args3) = Some "b.pth" ∧
  checkpoint_at disk3 "b.pth" = Some (ckpt 1) ∧
  children_state_dicts (ckpt 1) = inr [("ClsHead", {["fc.weight" := 11]})] ∧
  "ClsHead" ∈ [("ClsHead", ({["fc.weight" := 11]} : gmap string nat))].*1 ∧
  _modules model3_headless !! "ClsHead" = None ∧
  r.2 = inl (UnknownChildError "ClsHead") ∧
  written r.1 = ∅.
Proof.
  cbv zeta.
  assert (0 ≤ head_weights_index args3)%Z as H1 by (vm_compute; discriminate).
  assert (body_checkpoints args3 !! Z.to_nat (head_weights_index args3) = Some "b.pth")
    as H2 by reflexivity.
  assert (checkpoint_at disk3 "b.pth" = Some (ckpt 1)) as H3 by (vm_compute; reflexivity).
  assert (children_state_dicts (ckpt 1) = inr [("ClsHead", {["fc.weight" := 11]})])
    as H4 by (vm_compute; reflexivity).
  assert ("ClsHead" ∈ [("ClsHead", ({["fc.weight" := 11]} : gmap string nat))].*1)
    as H5 by left.
  assert (_modules model3_headless !! "ClsHead" = None) as H6 by reflexivity.
  destruct (unknown_head_child_fails disk3 hook_keep args3 model3_headless
              "b.pth" (ckpt 1) _ "ClsHead" H1 H2 H3 H4 H5 H6)
    as (_ & Hwr & _ & Herr).
  split_and!; [done..| |exact Hwr].
  apply Herr.
  - intros k p Hle Hp.
    destruct k as [|[|k]]; [| |simpl in Hle; lia];
      simpl in Hp; injection Hp as <-; ready_on_disk.
  - intros [|cs d1] sd d2 Hd; [constructor|].
    destruct d1; discriminate Hd.
Defined.


(** A returning run on the model with the extra head child. *)
Lemma written_leaf_origin_witness :
  let w := (main disk3 hook_keep args3 (initial (model3_box 300))).1 in
  main disk3 hook_keep args3 (initial (model3_box 300)) = (w, inr ()) ∧
  ∃ s,
    written w = {[output_model args3 := {["model" := s]}]} ∧
    ∀ child module k v,
      _modules s !! child = Some module → module !! k = Some v →
      (∃ path checkpoint,
         (0 ≤ head_weights_index args3)%Z ∧
         body_checkpoints args3 !! Z.to_nat (head_weights_index args3) = Some path ∧
         checkpoint_at disk3 path = Some checkpoint ∧
         ((child ++ String dot k)%string, v) ∈ checkpoint) ∨
      ((child ∉ (routed_heads disk3 args3).*1) ∧
       _modules (model3_box 300) !! child = Some module).
Proof.
  cbv zeta.
  assert (main disk3 hook_keep args3 (initial (model3_box 300)) =
          ((main disk3 hook_keep args3 (initial (model3_box 300))).1, inr ()))
    as Hrun by (vm_compute; reflexivity).
  destruct (written_leaf_origin disk3 hook_keep args3 (model3_box 300) _ Hrun)
    as (s & w1 & Hwr & _ & _ & _ & _ & Hheads).
  split; [exact Hrun|]. by exists s.
Defined.

(** Two returning runs from constructed models that differ in
    [Box_Outs.w]. *)
Lemma written_state_up_to_constructor_witness :
  let w := (main disk3 hook_keep args3 (initial (model3_box 300))).1 in
  let w' := (main disk3 hook_keep args3 (initial (model3_box 301))).1 in
  main disk3 hook_keep args3 (initial (model3_box 300)) = (w, inr ()) ∧
  main disk3 hook_keep args3 (initial (model3_box 301)) = (w', inr ()) ∧
  ∃ s s',
    written w = {[output_model args3 := {["model" := s]}]} ∧
    written w' = {[output_model args3 := {["model" := s']}]} ∧
    (∀ child, child ∈ (routed_heads disk3 args3).*1 →
              _modules s !! child = _modules s' !! child) ∧
    (∀ i, i < length (body_checkpoints args3) →
          bodies (Conv_Body s) !! i = bodies (Conv_Body s') !! i).
Proof.
  cbv zeta.
  assert (main disk3 hook_keep args3 (initial (model3_box 300)) =
          ((main disk3 hook_keep args3 (initial (model3_box 300))).1, inr ()))
    as Hrun by (vm_compute; reflexivity).
  assert (main disk3 hook_keep args3 (initial (model3_box 301)) =
          ((main disk3 hook_keep args3 (initial (model3_box 301))).1, inr ()))
    as Hrun' by (vm_compute; reflexivity).
  destruct (written_state_up_to_constructor disk3 hook_keep args3 _ _ _ _ Hrun Hrun')
    as (s & s' & Hwr & Hwr' & Hheads & Hbodies & _).
  split_and!; [exact Hrun|exact Hrun'|].
  exists s, s'. split_and!; [done..|]. by apply Hbodies.
Defined.

(** The second checkpoint of the scenario is a dict whose head key has a
    dot: its head partition is built. *)
Lemma head_partition_builds_iff_dotted_witness :
  NoDup (keys (ckpt 1)) ∧ ∃ d, children_state_dicts (ckpt 1) = inr d.
Proof.
  assert (NoDup (keys (ckpt 1))) as Hnd.
  { apply (bool_decide_unpack _). by vm_compute. }
  split; [exact Hnd|].
  destruct (head_partition_builds_iff_dotted (ckpt 1) Hnd) as (Hiff & _ & _).
  apply Hiff. intros key Hin Hb.
  unfold keys, ckpt in Hin. simpl in Hin.
  apply elem_of_cons in Hin as [->|Hin]; [discriminate Hb|].
  apply elem_of_cons in Hin as [->|Hin]; [reflexivity|].
  by apply elem_of_nil in Hin.
Defined.

(** The head weights taken from a checkpoint of a backbone alone. *)
Lemma pure_backbone_head_source_witness :
  (0 ≤ head_weights_index args3)%Z ∧
  body_checkpoints args3 !! Z.to_nat (head_weights_index args3) = Some "b.pth" ∧
  checkpoint_at disk3_backbone "b.pth" = Some (backbone_only 1) ∧
  ∃ w,
    assembly_loop disk3_backbone args3 0 (body_checkpoints args3) (initial model3) =
      (w, inr ()) ∧
    _modules (model w) = _modules model3 ∧
    ∀ child, EvLoadChild child ∉ trace w.
Proof.
  assert (0 ≤ head_weights_index args3)%Z as H1 by (vm_compute; discriminate).
  assert (body_checkpoints args3 !! Z.to_nat (head_weights_index args3) = Some "b.pth")
    as H2 by reflexivity.
  assert (checkpoint_at disk3_backbone "b.pth" = Some (backbone_only 1))
    as H3 by (vm_compute; reflexivity).
  split_and!; [exact H1|exact H2|exact H3|].
  apply (pure_backbone_head_source disk3_backbone args3 model3 "b.pth"
           (backbone_only 1) H1 H2 H3).
  - intros key Hin. unfold keys, backbone_only in Hin. simpl in Hin.
    apply elem_of_cons in Hin as [->|Hin]; [reflexivity|].
    by apply elem_of_nil in Hin.
  - intros k p Hp.
    destruct k as [|[|[|k]]]; [| | |discriminate Hp];
      simpl in Hp; injection Hp as <-; ready_on_disk.
Defined.

(** A second path that is not on the disk: the first iteration is ready,
    the second raises the load error. *)
Lemma first_failure_decides_witness :
  let args_missing := args_for ["a.pth"; "missing.pth"] 1 in
  let r := main disk3 hook_keep args_missing (initial model3) in
  body_checkpoints args_missing !! 1%nat = Some "missing.pth" ∧
  disk3 !! "missing.pth" = None ∧
  r.2 = inl (LoadError "missing.pth") ∧
  written r.1 = ∅.
Proof.
  cbv zeta.
  set (args_missing := args_for ["a.pth"; "missing.pth"] 1).
  assert (body_checkpoints args_missing !! 1%nat = Some "missing.pth") as H1
    by reflexivity.
  assert (disk3 !! "missing.pth" = None) as H2 by (vm_compute; reflexivity).
  assert (∀ k path, (k < 1)%nat → body_checkpoints args_missing !! k = Some path →
                    step_ready disk3 args_missing model3 k path) as H3.
  { intros k path Hk Hp. destruct k as [|k]; [|lia].
    simpl in Hp. injection Hp as <-. step_ready_on_disk. intros [=]. }
  destruct (first_failure_decides disk3 hook_keep args_missing model3 1
              "missing.pth" H1 H3) as (Hload & _).
  destruct (Hload H2) as [Herr Hwr].
  split_and!; [exact H1|exact H2|exact Herr|exact Hwr].
Defined.

(** In the scenario the one head load is on [ClsHead]. *)
Lemma head_loads_never_reach_backbone_witness :
  EvLoadChild "ClsHead" ∈ trace (main disk3 hook_keep args3 (initial model3)).1 ∧
  is_body_key "ClsHead" = false ∧ "ClsHead" ≠ Conv_Body_name.
Proof.
  assert (EvLoadChild "ClsHead" ∈
          trace (main disk3 hook_keep args3 (initial model3)).1) as Hin.
  { vm_compute. repeat first [left|right]. }
  split; [exact Hin|].
  exact (head_loads_never_reach_backbone disk3 hook_keep args3 model3 "ClsHead" Hin).
Defined.

(** The first checkpoint is not at the head-weights index: with another
    head in it, even under a key without a dot, the run is the same. *)
Lemma run_reads_bodies_and_one_head_witness :
  checkpoint_at disk3 "a.pth" = Some (ckpt 0) ∧
  checkpoint_at disk3_other_head "a.pth" = Some ckpt_other_head ∧
  body_items (ckpt 0) = body_items ckpt_other_head ∧
  main disk3 hook_keep args3 (initial model3) =
  main disk3_other_head hook_keep args3 (initial model3).
Proof.
  assert (checkpoint_at disk3 "a.pth" = Some (ckpt 0)) as H1
    by (vm_compute; reflexivity).
  assert (checkpoint_at disk3_other_head "a.pth" = Some ckpt_other_head) as H2
    by (vm_compute; reflexivity).
  assert (body_items (ckpt 0) = body_items ckpt_other_head) as H3
    by (vm_compute; reflexivity).
  split_and!; [exact H1|exact H2|exact H3|].
  apply (run_reads_bodies_and_one_head hook_keep args3 disk3 disk3_other_head).
  intros k path Hp.
  destruct k as [|[|[|k]]]; [| | |discriminate Hp]; simpl in Hp; injection Hp as <-.
  - right. exists (ckpt 0), ckpt_other_head. split_and!; [done..|]. intros [=].
  - left. vm_compute. reflexivity.
  - left. vm_compute. reflexivity.
Defined.

(** A checkpoint in [Outputs/run/ckpt]: the results go to
    [Outputs/run/test]. *)
Lemma output_dir_two_levels_up_witness :
  let args :=
    {| TestNet.dataset := Some "davis_flow_moving";
       TestNet.load_ckpt := Some "Outputs/run/ckpt/model_step9.pth";
       TestNet.load_detectron := None;
       TestNet.output_dir := None;
       TestNet.multi_gpu_testing := false |} in
  ∃ dir, TestNet.preflight true 1 args = inr (dir, true) ∧
         dir = "Outputs/run/test".
Proof.
  cbv zeta. eexists. split; [reflexivity|].
  match goal with
  | |- ?dir = _ =>
      destruct (output_dir_two_levels_up true 1
                  {| TestNet.dataset := Some "davis_flow_moving";
                     TestNet.load_ckpt := Some "Outputs/run/ckpt/model_step9.pth";
                     TestNet.load_detectron := None;
                     TestNet.output_dir := None;
                     TestNet.multi_gpu_testing := false |}
                  dir true eq_refl) as (_ & _ & _ & Hnone)
  end.
  destruct (Hnone eq_refl) as (_ & Hpath & _).
  apply (Hpath "Outputs/run" "ckpt" "model_step9.pth"); [reflexivity| |done|..];
    reflexivity.
Defined.

End ScenarioRuns.
